(** * Projected spotlight textures (03-projection/script.js)

    A shallow embedding of the A-Frame demo that lets a spotlight project a
    texture: the [spotlights] system (light registry), the
    [spotlight-texture] component (texture binding), the
    [receive-spotlight-texture] component (uniform publication) and the
    patched GLSL routine [getSpotLightInfo].

    Numbers (JS doubles, GLSL floats) are idealised as real numbers: the
    development reasons about the exact arithmetic the code denotes, not
    about rounding. *)

From Stdlib Require Import ZArith List Bool Lia Permutation Reals Lra String.
From stdpp Require Import base gmap strings.
Import ListNotations.

Set Warnings "-register-all".

Local Open Scope Z_scope.

(** ** Host data: three.js vectors, matrices, layers, textures *)

Record Vector3 := mkVector3 { vx : R; vy : R; vz : R }.

(** [Matrix4.elements]: sixteen numbers in column-major order. *)
Record Matrix4 := mkMatrix4 { elements : list R }.

(** [Layers]: a 32-bit mask; [layers.test(other)] is
    [(this.mask & other.mask) !== 0]. *)
Record Layers := mkLayers { mask : Z }.

Definition Layers_test (this other : Layers) : bool :=
  negb (Z.land (mask this) (mask other) =? 0).

Inductive Encoding := LinearEncoding | sRGBEncoding.

(** A texture handle as delivered by the host loader: the source it was
    loaded from and its colour encoding. *)
Record Texture := mkTexture { image_src : string; encoding : Encoding }.

(** ** A-Frame entities and the [spotlight-texture] component instance *)

(** The instance registered under the key ['spotlight-texture']:
    [this.data.src], [this.data.intensity] and the field [this.texture]
    ([None] is JS [undefined]). *)
Record SpotlightTexture := mkSpotlightTexture {
  data_src : string;
  data_intensity : R;
  texture : option Texture
}.

(** The object stored under [object3DMap.mesh]; only [material] is read.
    It is [None] for an object that has no material, such as a group. *)
Record Mesh := mkMesh { material : option nat }.

Record Entity := mkEntity {
  components : gmap string SpotlightTexture;
  object3DMap : gmap string Mesh
}.

(** ** The scene graph *)

Record Object3DData := mkObject3DData {
  uuid : nat;
  visible : bool;
  isLight : bool;
  isSpotLight : bool;
  castShadow : bool;
  layers : Layers;
  matrixWorld : Matrix4;
  el : option Entity
}.

Inductive Object3D := Object3DNode (d : Object3DData) (cs : list Object3D).

Definition props (o : Object3D) : Object3DData :=
  match o with Object3DNode d _ => d end.

Definition children (o : Object3D) : list Object3D :=
  match o with Object3DNode _ cs => cs end.

(** Induction over the scene graph with the hypothesis available for
    every child. *)
Section Object3D_induction.
Variable P : Object3D -> Prop.
Hypothesis Hnode : forall d cs, Forall P cs -> P (Object3DNode d cs).

Fixpoint Object3D_nested_ind (o : Object3D) : P o :=
  match o with
  | Object3DNode d cs =>
      Hnode d cs
        ((fix all (l : list Object3D) : Forall P l :=
            match l with
            | [] => List.Forall_nil P
            | c :: l' => List.Forall_cons P c l' (Object3D_nested_ind c) (all l')
            end) cs)
  end.
End Object3D_induction.

Record Camera := mkCamera {
  camera_layers : Layers;
  matrixWorldInverse : Matrix4
}.

(** [Object3D.traverseVisible(callback)] of the host: an invisible object
    cuts its whole subtree; otherwise the callback runs on the object and
    then on each child in order.  The callback's effect on the enclosing
    state is threaded explicitly. *)
Fixpoint traverseVisible {S : Type} (callback : Object3D -> S -> S)
    (o : Object3D) (s : S) : S :=
  match o with
  | Object3DNode d cs =>
      if visible d
      then fold_left (fun acc c => traverseVisible callback c acc) cs
                     (callback o s)
      else s
  end.

(** [Array.prototype.sort(compare)] of the host.  ECMAScript requires the
    sort to be stable; with a consistent comparator the result is the
    unique stable ordering, computed here by insertion from the right. *)
Section ArraySort.
Context {A : Type} (compare : A -> A -> Z).

Fixpoint sort_insert (x : A) (l : list A) : list A :=
  match l with
  | [] => [x]
  | y :: l' => if compare x y >? 0 then y :: sort_insert x l' else x :: l
  end.

Definition Array_sort (l : list A) : list A :=
  fold_right sort_insert [] l.
End ArraySort.

(** ** System [spotlights] (script.js, lines 2-20) *)

Record SpotlightsSystem := mkSpotlightsSystem { spotLights : list Object3D }.

Definition b2z (b : bool) : Z := if b then 1 else 0.

(** The callback handed to [traverseVisible] (line 12). *)
Definition collect (camera : Camera) (object : Object3D)
    (acc : list Object3D) : list Object3D :=
  if isLight (props object) && isSpotLight (props object)
     && Layers_test (layers (props object)) (camera_layers camera)
  then acc ++ [object]
  else acc.

(** The comparator of line 18. *)
Definition byCastShadow (lightA lightB : Object3D) : Z :=
  b2z (castShadow (props lightB)) - b2z (castShadow (props lightA)).

Definition tick (scene : Object3D) (camera : Camera)
    (this : SpotlightsSystem) : SpotlightsSystem :=
  let collected := traverseVisible (collect camera) scene [] in
  mkSpotlightsSystem (Array_sort byCastShadow collected).

(** ** Exceptions *)

(** A JS call either completes normally or throws. *)
Inductive JSError := TypeError.

Inductive Completion (A : Type) :=
  | Normal (a : A)
  | Throw (e : JSError).
Arguments Normal {A} a.
Arguments Throw {A} e.

#[global] Instance Completion_ret : MRet Completion := fun A a => Normal a.
#[global] Instance Completion_bind : MBind Completion := fun A B f c =>
  match c with
  | Normal a => f a
  | Throw e => Throw e
  end.

(** ** Component [spotlight-texture] (script.js, lines 23-42) *)

(** The host renderer system's [applyColorCorrection]: with colour
    management on, a texture is marked sRGB; otherwise it is left alone. *)
Definition applyColorCorrection (colorManagement : bool) (t : Texture)
    : Texture :=
  if colorManagement then mkTexture (image_src t) sRGBEncoding else t.

(** The component together with the host loader's requests that were
    issued for it and have not been answered yet, oldest first.  Every
    request carries the same callback (lines 36-40), so a request is
    identified by the source it was issued for. *)
Record Binding := mkBinding {
  component : SpotlightTexture;
  inflight : list string
}.

Definition getIntensity (b : Binding) : R := data_intensity (component b).
Definition getResolvedTexture (b : Binding) : option Texture :=
  texture (component b).

(** Lines 33-41 up to the callback: clear the field, hand the request to
    [systems.material.loadTexture]. *)
Definition updateSrc (b : Binding) : Binding :=
  let src := data_src (component b) in
  let this := mkSpotlightTexture (data_src (component b))
                (data_intensity (component b)) None in
  mkBinding this (inflight b ++ [src]).

(** Lines 28-32.  [oldData_src] is [None] on the first call, where
    [oldData] is the empty object. *)
Definition update (oldData_src : option string) (b : Binding) : Binding :=
  if decide (Some (data_src (component b)) = oldData_src)
  then b
  else updateSrc b.

(** The host changing the [src] attribute: the new data is stored, then
    [update] is called with the previous data. *)
Definition setSource (id : string) (b : Binding) : Binding :=
  let oldData_src := data_src (component b) in
  let this := mkSpotlightTexture id (data_intensity (component b))
                (texture (component b)) in
  update (Some oldData_src) (mkBinding this (inflight b)).

(** The callback of lines 36-40: colour-correct, then store, whatever the
    component's current source is. *)
Definition onTextureLoaded (colorManagement : bool) (loaded : Texture)
    (this : SpotlightTexture) : SpotlightTexture :=
  mkSpotlightTexture (data_src this) (data_intensity this)
    (Some (applyColorCorrection colorManagement loaded)).

(** What the host loader can do with the request at position [k]: deliver
    the texture of that request's source to the callback, or fail, in
    which case the callback is never called. *)
Inductive LoaderEvent := Loaded (k : nat) | Failed (k : nat).

Definition deliver (colorManagement : bool) (ev : LoaderEvent) (b : Binding)
    : Binding :=
  match ev with
  | Loaded k =>
      match inflight b !! k with
      | Some src =>
          mkBinding
            (onTextureLoaded colorManagement (mkTexture src LinearEncoding)
               (component b))
            (delete k (inflight b))
      | None => b
      end
  | Failed k => mkBinding (component b) (delete k (inflight b))
  end.

Definition deliverAll (colorManagement : bool) (evs : list LoaderEvent)
    (b : Binding) : Binding :=
  fold_left (fun b ev => deliver colorManagement ev b) evs b.

(** A successful completion that is actually delivered. *)
Definition completes (b : Binding) (ev : LoaderEvent) : bool :=
  match ev with
  | Loaded k => bool_decide (is_Some (inflight b !! k))
  | Failed _ => false
  end.

(** ** Component [receive-spotlight-texture] (script.js, lines 45-90) *)

Local Open Scope R_scope.

Definition element (m : Matrix4) (i : nat) : R := nth i (elements m) 0.

Definition Vector3_length (v : Vector3) : R :=
  sqrt (vx v * vx v + vy v * vy v + vz v * vz v).

(** [Vector3.normalize]: [divideScalar(this.length() || 1)]. *)
Definition Vector3_normalize (v : Vector3) : Vector3 :=
  let l := Vector3_length v in
  let d := if Req_dec_T l 0 then 1 else l in
  mkVector3 (vx v * (1 / d)) (vy v * (1 / d)) (vz v * (1 / d)).

(** [Vector3.transformDirection(m)]: the upper-left 3x3 block of [m]
    applied to the vector, then normalised. *)
Definition transformDirection (v : Vector3) (m : Matrix4) : Vector3 :=
  let x := vx v in let y := vy v in let z := vz v in
  Vector3_normalize
    (mkVector3 (element m 0 * x + element m 4 * y + element m 8 * z)
               (element m 1 * x + element m 5 * y + element m 9 * z)
               (element m 2 * x + element m 6 * y + element m 10 * z)).

(** One element of [extras] (lines 62-66); [intensity] is [None] when the
    optional chain yields [undefined]. *)
Record AuxLightData := mkAuxLightData {
  up : Vector3;
  hasTexture : bool;
  intensity : option R
}.

Inductive UniformValue :=
  | SpotLightExsValue (extras : list AuxLightData)
  | SpotLightTexturesValue (textures : list (option Texture))
  | OtherValue (v : Z).

Record ShaderObject := mkShaderObject {
  uniforms : gmap string UniformValue
}.

(** The body of the [forEach] callback (lines 53-68) for one light; it
    throws when [spotLight.el] is undefined. *)
Definition auxFor (camera : Camera) (spotLight : Object3D)
    : Completion (AuxLightData * option Texture) :=
  match el (props spotLight) with
  | None => Throw TypeError
  | Some e =>
      let spotLightTextureInfo := components e !! "spotlight-texture" in
      let up := mkVector3 0 1 0 in
      let up := transformDirection up (matrixWorld (props spotLight)) in
      let up := transformDirection up (matrixWorldInverse camera) in
      Normal
        (mkAuxLightData up
           (bool_decide (is_Some (spotLightTextureInfo ≫= texture)))
           (data_intensity <$> spotLightTextureInfo),
         spotLightTextureInfo ≫= texture)
  end.

(** The [forEach] of lines 52-69, pushing to [extras] and [textures]. *)
Fixpoint buildAux (camera : Camera) (lights : list Object3D)
    (extras : list AuxLightData) (textures : list (option Texture))
    : Completion (list AuxLightData * list (option Texture)) :=
  match lights with
  | [] => Normal (extras, textures)
  | spotLight :: rest =>
      et ← auxFor camera spotLight;
      buildAux camera rest (extras ++ [et.1]) (textures ++ [et.2])
  end.

(** [updateUniforms] (lines 48-74). *)
Definition updateUniforms (system : SpotlightsSystem)
    (shaderObject : ShaderObject) (camera : Camera)
    : Completion ShaderObject :=
  et ← buildAux camera (spotLights system) [] [];
  let u := <["spotLightExs" := SpotLightExsValue et.1]> (uniforms shaderObject) in
  let u := <["spotLightTextures" := SpotLightTexturesValue et.2]> u in
  Normal (mkShaderObject u).

(** The component after [init]: the material whose hooks were installed
    and the closure variable [shaderObject] together with the current
    contents of the object it refers to ([None] is [null]). *)
Record Receiver := mkReceiver {
  hookedMaterial : nat;
  shaderObject : option ShaderObject
}.

(** [init] (lines 46-89): [getObject3D('mesh')] is [object3DMap.mesh];
    reading [.material] of [undefined] throws (line 77), and so does
    assigning [onBeforeCompile] on a material that is [undefined]
    (line 80). *)
Definition init (this_el : Entity) : Completion Receiver :=
  match object3DMap this_el !! "mesh" with
  | None => Throw TypeError
  | Some mesh =>
      match material mesh with
      | None => Throw TypeError
      | Some m => Normal (mkReceiver m None)
      end
  end.

(** [material.onBeforeCompile] (lines 80-83). *)
Definition onBeforeCompile (system : SpotlightsSystem) (sceneCamera : Camera)
    (shader : ShaderObject) (r : Receiver) : Completion Receiver :=
  shader' ← updateUniforms system shader sceneCamera;
  Normal (mkReceiver (hookedMaterial r) (Some shader')).

(** [material.onBeforeRender] (lines 85-88). *)
Definition onBeforeRender (system : SpotlightsSystem) (camera : Camera)
    (r : Receiver) : Completion Receiver :=
  match shaderObject r with
  | None => Normal r
  | Some so =>
      so' ← updateUniforms system so camera;
      Normal (mkReceiver (hookedMaterial r) (Some so'))
  end.

(** What a shader object currently publishes under the two uniform names. *)
Definition published (so : ShaderObject)
    : option (list AuxLightData * list (option Texture)) :=
  match uniforms so !! "spotLightExs", uniforms so !! "spotLightTextures" with
  | Some (SpotLightExsValue extras), Some (SpotLightTexturesValue textures) =>
      Some (extras, textures)
  | _, _ => None
  end.

(** Frames: the scene is handed to [tick] as it stands after whatever
    was added or removed since the last frame; compile and render publish. *)
Record World := mkWorld {
  system : SpotlightsSystem;
  sceneCamera : Camera;
  receiver : Receiver
}.

Inductive FrameEvent :=
  | Tick (scene : Object3D)
  | Compile (shader : ShaderObject)
  | Render (camera : Camera).

Definition frameStep (w : World) (ev : FrameEvent) : Completion World :=
  match ev with
  | Tick scene =>
      Normal (mkWorld (tick scene (sceneCamera w) (system w))
                      (sceneCamera w) (receiver w))
  | Compile shader =>
      r ← onBeforeCompile (system w) (sceneCamera w) shader (receiver w);
      Normal (mkWorld (system w) (sceneCamera w) r)
  | Render camera =>
      r ← onBeforeRender (system w) camera (receiver w);
      Normal (mkWorld (system w) (sceneCamera w) r)
  end.

Definition publishes (ev : FrameEvent) : bool :=
  match ev with
  | Tick _ => false
  | Compile _ | Render _ => true
  end.

Fixpoint frameRun (w : World) (evs : list FrameEvent) : Completion World :=
  match evs with
  | [] => Normal w
  | ev :: rest => w' ← frameStep w ev; frameRun w' rest
  end.

(** ** The patched shader chunk (script.js, lines 108-174) *)

Module GLSL.

Record vec2 := mkVec2 { x2 : R; y2 : R }.
Record vec3 := mkVec3 { x3 : R; y3 : R; z3 : R }.
Record vec4 := mkVec4 { r4 : R; g4 : R; b4 : R; a4 : R }.

Definition rgb (c : vec4) : vec3 := mkVec3 (r4 c) (g4 c) (b4 c).

(** A bound [sampler2D] is what [texture(sampler, uv)] returns. *)
Definition sampler2D := vec2 -> vec4.
Definition texture (s : sampler2D) (uv : vec2) : vec4 := s uv.

Definition vsub (a b : vec3) : vec3 :=
  mkVec3 (x3 a - x3 b) (y3 a - y3 b) (z3 a - z3 b).
Definition vscale (a : vec3) (k : R) : vec3 :=
  mkVec3 (x3 a * k) (y3 a * k) (z3 a * k).
Definition dot (a b : vec3) : R := x3 a * x3 b + y3 a * y3 b + z3 a * z3 b.
Definition cross (a b : vec3) : vec3 :=
  mkVec3 (y3 a * z3 b - z3 a * y3 b)
         (z3 a * x3 b - x3 a * z3 b)
         (x3 a * y3 b - y3 a * x3 b).
Definition length (a : vec3) : R := sqrt (dot a a).
(** [normalize] divides by the length; the shader leaves the result for
    the zero vector undefined, here it is the zero vector. *)
Definition normalize (a : vec3) : vec3 := vscale a (/ length a).

Definition gt (a b : R) : bool := if Rlt_dec b a then true else false.
Definition le (a b : R) : bool := if Rle_dec a b then true else false.
Definition eq (a b : R) : bool := if Req_dec_T a b then true else false.
Definition vec3_neq (a b : vec3) : bool :=
  negb (eq (x3 a) (x3 b) && eq (y3 a) (y3 b) && eq (z3 a) (z3 b)).

Record SpotLight := mkSpotLight {
  position : vec3;
  direction : vec3;
  color : vec3;
  distance : R;
  decay : R;
  coneCos : R;
  penumbraCos : R
}.

Record SpotLightEx := mkSpotLightEx {
  up : vec3;
  hasTexture : bool;
  intensity : R
}.

Record GeometricContext := mkGeometricContext {
  g_position : vec3;
  g_normal : vec3;
  g_viewDir : vec3
}.

Record IncidentLight := mkIncidentLight {
  l_color : vec3;
  l_direction : vec3;
  l_visible : bool
}.

(** The two routines of the host's [lights_pars_begin] chunk that the
    patched routine calls; their text is outside the patched block. *)
Class HostChunk := {
  getSpotAttenuation : R -> R -> R -> R;
  getDistanceAttenuation : R -> R -> R -> R
}.

(** Lines 147-157: the texture coordinate for a light-to-surface
    direction.  The shader's [acos] is defined on [-1, 1] only and its
    division needs a cone angle that is not zero; here both are total,
    and the two agree for unit vectors, an up vector not parallel to the
    direction and a cone cosine strictly between -1 and 1. *)
Definition samplePointFor (spotLight : SpotLight) (spotLightEx : SpotLightEx)
    (light_direction : vec3) : vec2 :=
  let left := normalize (cross (up spotLightEx) (direction spotLight)) in
  let samplePoint := mkVec2 0.5 0.5 in
  let coneAngle := acos (coneCos spotLight) in
  let leftCos := dot light_direction left in
  let leftAngle := acos leftCos in
  let upCos := dot light_direction (up spotLightEx) in
  let upAngle := acos upCos in
  mkVec2 (x2 samplePoint + (leftAngle - PI / 2) / (2 * coneAngle))
         (y2 samplePoint + (upAngle - PI / 2) / (2 * coneAngle)).

(** Lines 131-173; the [out] parameter is the result. *)
Definition getSpotLightInfo `{HostChunk} (spotLight : SpotLight)
    (spotLightEx : SpotLightEx) (spotLightTexture : sampler2D)
    (geometry : GeometricContext) : IncidentLight :=
  let lVector := vsub (position spotLight) (g_position geometry) in
  let light_direction := normalize lVector in
  let angleCos := dot light_direction (direction spotLight) in
  let spotAttenuation :=
    getSpotAttenuation (coneCos spotLight) (penumbraCos spotLight) angleCos in
  if gt spotAttenuation 0 || le spotAttenuation 0 then
    let lightDistance := length lVector in
    let color0 := color spotLight in
    let color1 :=
      if hasTexture spotLightEx then
        let samplePoint :=
          samplePointFor spotLight spotLightEx light_direction in
        vscale (rgb (texture spotLightTexture samplePoint))
               (intensity spotLightEx)
      else color0 in
    let light_color := vscale color1 spotAttenuation in
    let light_color :=
      vscale light_color
        (getDistanceAttenuation lightDistance (distance spotLight)
           (decay spotLight)) in
    mkIncidentLight light_color light_direction
      (vec3_neq light_color (mkVec3 0 0 0))
  else
    mkIncidentLight (mkVec3 0 0 0) light_direction false.

(** The host's [getSpotAttenuation] is GLSL [smoothstep]; the distance
    attenuation of a light without cutoff distance is the constant 1.
    Used to exercise the routine on concrete inputs. *)
Definition clamp (x lo hi : R) : R := Rmin (Rmax x lo) hi.
Definition smoothstep (edge0 edge1 x : R) : R :=
  let t := clamp ((x - edge0) / (edge1 - edge0)) 0 1 in
  t * t * (3 - 2 * t).

Definition threeChunk : HostChunk :=
  {| getSpotAttenuation := smoothstep;
     getDistanceAttenuation := fun _ _ _ => 1 |}.

(** Sample inputs: a light at the origin with a bound texture and
    intensity 2, shining down the negative z axis with its up vector
    along y; the same light aimed at a target so that its axis is tilted
    towards its up vector; and a point on each axis. *)
Definition white : sampler2D := fun _ => mkVec4 1 1 1 1.

Definition straight_light : SpotLight :=
  mkSpotLight (mkVec3 0 0 0) (mkVec3 0 0 1) (mkVec3 1 1 1) 0 1 (1/2) (3/4).
Definition tilted_light : SpotLight :=
  mkSpotLight (mkVec3 0 0 0) (mkVec3 0 (3/5) (4/5)) (mkVec3 1 1 1)
              0 1 (1/2) (3/4).
Definition textured_ex : SpotLightEx := mkSpotLightEx (mkVec3 0 1 0) true 2.
Definition plain_ex : SpotLightEx := mkSpotLightEx (mkVec3 0 1 0) false 10.

Definition on_straight_axis : GeometricContext :=
  mkGeometricContext (mkVec3 0 0 (-2)) (mkVec3 0 0 1) (mkVec3 0 0 1).
Definition on_tilted_axis : GeometricContext :=
  mkGeometricContext (mkVec3 0 (-(3/5)) (-(4/5))) (mkVec3 0 0 1)
                     (mkVec3 0 0 1).

End GLSL.

(** ** The binding over its whole life *)

(** The host changing the [intensity] attribute: the new data is stored,
    then [update] is called with the previous data, whose [src] is the
    current one. *)
Definition setIntensity (v : R) (b : Binding) : Binding :=
  let oldData_src := data_src (component b) in
  let this := mkSpotlightTexture (data_src (component b)) v
                (texture (component b)) in
  update (Some oldData_src) (mkBinding this (inflight b)).

(** The component as the host creates it from the schema (lines 24-27):
    the first [update] receives the empty object as [oldData]. *)
Definition initBinding (src : string) (v : R) : Binding :=
  update None (mkBinding (mkSpotlightTexture src v None) []).

Inductive BindingEvent :=
  | SetSource (id : string)
  | SetIntensity (v : R)
  | Loader (ev : LoaderEvent).

Definition bindingStep (colorManagement : bool) (b : Binding)
    (ev : BindingEvent) : Binding :=
  match ev with
  | SetSource id => setSource id b
  | SetIntensity v => setIntensity v b
  | Loader ev => deliver colorManagement ev b
  end.

Definition bindingRun (colorManagement : bool) (evs : list BindingEvent)
    (b : Binding) : Binding :=
  fold_left (bindingStep colorManagement) evs b.

(** The sources handed to [setSource] in a run. *)
Definition requested (evs : list BindingEvent) : list string :=
  flat_map (fun ev => match ev with SetSource id => [id] | _ => [] end) evs.

(** The intensities handed to [setIntensity] in a run. *)
Definition intensitiesSet (evs : list BindingEvent) : list R :=
  flat_map (fun ev => match ev with SetIntensity v => [v] | _ => [] end) evs.

(** Every request in flight completes successfully, oldest first. *)
Definition completeInOrder (colorManagement : bool) (b : Binding) : Binding :=
  deliverAll colorManagement
    (repeat (Loaded 0) (List.length (inflight b))) b.

(** ** Component [rotate-round] (script.js, lines 93-97) *)

(** [object3D.rotation], an Euler triple. *)
Record Euler := mkEuler { rot_x : R; rot_y : R; rot_z : R }.

Definition rotate_round_tick (t dt : R) (rotation : Euler) : Euler :=
  mkEuler (rot_x rotation) (t / 2000) (rot_z rotation).

Definition rotate_round_run (ticks : list (R * R)) (rotation : Euler)
    : Euler :=
  fold_left (fun r td => rotate_round_tick td.1 td.2 r) ticks rotation.

(** ** Patching the shader chunks (script.js, lines 104-107, 176-190) *)

Definition newline : Ascii.ascii := Ascii.ascii_of_nat 10.
Definition tab : string := String (Ascii.ascii_of_nat 9) EmptyString.

(** [String.prototype.split('\n')]: the pieces between newlines, one more
    than there are newlines. *)
Fixpoint split_newline (s : string) : list string :=
  match s with
  | EmptyString => [EmptyString]
  | String c s' =>
      if Ascii.eqb c newline then EmptyString :: split_newline s'
      else match split_newline s' with
           | [] => [String c EmptyString]
           | piece :: pieces => String c piece :: pieces
           end
  end.

(** [Array.prototype.join('\n')]. *)
Fixpoint join_newline (l : list string) : string :=
  match l with
  | [] => EmptyString
  | [piece] => piece
  | piece :: rest =>
      String.append piece (String newline (join_newline rest))
  end.

(** Position of the first element equal ([===]) to [x] in [l], counted
    from [i], or -1. *)
Fixpoint firstIndex (x : string) (l : list string) (i : Z) : Z :=
  match l with
  | [] => (-1)%Z
  | y :: l' => if String.eqb y x then i else firstIndex x l' (i + 1)%Z
  end.

(** [Array.prototype.indexOf(x, fromIndex)]: a [fromIndex] at or past the
    end finds nothing; a negative one counts from the end, not below 0. *)
Definition Array_indexOf (l : list string) (x : string) (fromIndex : Z) : Z :=
  let len := Z.of_nat (List.length l) in
  if (fromIndex >=? len)%Z then (-1)%Z
  else
    let k := if (fromIndex <? 0)%Z then Z.max (len + fromIndex) 0
             else fromIndex in
    firstIndex x (drop (Z.to_nat k) l) k.

(** The array after [Array.prototype.splice(start, deleteCount, ...items)]:
    a negative [start] counts from the end, [start] and [deleteCount] are
    clamped to the array. *)
Definition Array_splice {A : Type} (l : list A) (start deleteCount : Z)
    (items : list A) : list A :=
  let len := Z.of_nat (List.length l) in
  let actualStart :=
    if (start <? 0)%Z then Z.max (len + start) 0 else Z.min start len in
  let actualDeleteCount :=
    Z.min (Z.max deleteCount 0) (len - actualStart) in
  take (Z.to_nat actualStart) l ++ items
  ++ drop (Z.to_nat (actualStart + actualDeleteCount)) l.

Definition spot_light_start_marker : string := "#if NUM_SPOT_LIGHTS > 0".
Definition spot_light_end_marker : string := "#endif".

(** Lines 104-107 and 176.  [block] is the template literal of lines
    107-175, spliced in as a single array element; [chunk] is the host's
    [THREE.ShaderChunk.lights_pars_begin]. *)
Definition spliced_lines (block : string) (lights_pars_begin_lines : list string)
    : list string :=
  let spot_light_start_line :=
    Array_indexOf lights_pars_begin_lines spot_light_start_marker 0 in
  let spot_light_end_line :=
    Array_indexOf lights_pars_begin_lines spot_light_end_marker
      spot_light_start_line in
  Array_splice lights_pars_begin_lines spot_light_start_line
    (spot_light_end_line - spot_light_start_line + 1)%Z [block].

Definition patch_lights_pars_begin (block chunk : string) : string :=
  join_newline (spliced_lines block (split_newline chunk)).

Definition fragment_call : string :=
  String.append tab (String.append tab
    "getSpotLightInfo( spotLight, geometry, directLight );").
Definition fragment_call_extended : string :=
  String.append tab (String.append tab
    "getSpotLightInfo( spotLight, spotLightExs[UNROLLED_LOOP_INDEX], spotLightTextures[UNROLLED_LOOP_INDEX], geometry, directLight );").
Definition lambert_call : string :=
  String.append tab (String.append tab
    "getSpotLightInfo( spotLights[ i ], geometry, directLight );").

(** Lines 179-183. *)
Definition patch_lights_fragment_begin (chunk : string) : string :=
  join_newline
    (map (fun l => if String.eqb l fragment_call
                   then fragment_call_extended else l)
       (split_newline chunk)).

(** Lines 186-190. *)
Definition patch_lights_lambert_vertex (chunk : string) : string :=
  join_newline
    (map (fun l => if String.eqb l lambert_call then EmptyString else l)
       (split_newline chunk)).

(** ** Notions the properties are stated with *)

(** Every object of the graph, parents before children. *)
Fixpoint allNodes (o : Object3D) : list Object3D :=
  match o with
  | Object3DNode d cs => o :: flat_map allNodes cs
  end.


(** [visibleFrom root o]: [o] is [root] or a descendant of it, and [o] and
    all objects on the path down to it are visible. *)
Inductive visibleFrom : Object3D -> Object3D -> Prop :=
  | visible_here d cs :
      visible d = true -> visibleFrom (Object3DNode d cs) (Object3DNode d cs)
  | visible_below d cs c o :
      visible d = true -> In c cs -> visibleFrom c o ->
      visibleFrom (Object3DNode d cs) o.

(** The visible part of the graph, parents before children. *)
Fixpoint visibleNodes (o : Object3D) : list Object3D :=
  match o with
  | Object3DNode d cs =>
      if visible d then o :: flat_map visibleNodes cs else []
  end.

(** A spotlight on one of the camera's layers. *)
Definition inLayerSpot (camera : Camera) (o : Object3D) : bool :=
  isLight (props o) && isSpotLight (props o)
  && negb (Z.land (mask (layers (props o))) (mask (camera_layers camera)) =? 0)%Z.

Definition casts (o : Object3D) : bool := castShadow (props o).
Definition castsNot (o : Object3D) : bool := negb (castShadow (props o)).

(** [a] occurs somewhere before [b] in [l]. *)
Definition precedes {A : Type} (a b : A) (l : list A) : Prop :=
  exists l1 l2 l3, l = l1 ++ a :: l2 ++ b :: l3.

(** A piece of text that is one line. *)
Fixpoint oneLine (s : string) : bool :=
  match s with
  | EmptyString => true
  | String c s' => negb (Ascii.eqb c newline) && oneLine s'
  end.

(** What the two [map] callbacks of lines 180-182 and 187-189 do to a line. *)
Definition extendCall (l : string) : string :=
  if String.eqb l fragment_call then fragment_call_extended else l.

Definition dropCall (l : string) : string :=
  if String.eqb l lambert_call then EmptyString else l.

(** Calling an entry point [n] times in a row. *)
Fixpoint iterate {A : Type} (n : nat) (f : A -> Completion A) (a : A)
    : Completion A :=
  match n with
  | O => Normal a
  | S n' => a' ← f a; iterate n' f a'
  end.

(** While every request in flight is for [id], a texture that shows up
    is [id]'s. *)
Definition onlyFor (id : string) (b : Binding) : Prop :=
  Forall (fun src => src = id) (inflight b)
  /\ match getResolvedTexture b with
     | None => True
     | Some t => image_src t = id
     end.

(** The texture the callback stores when the request for [src] completes. *)
Definition corrected (colorManagement : bool) (src : string) : Texture :=
  applyColorCorrection colorManagement (mkTexture src LinearEncoding).

(** Every request in flight is for a source of [pool], and a resolved
    texture is the colour-corrected load of one. *)
Definition loadedFrom (colorManagement : bool) (pool : list string)
    (b : Binding) : Prop :=
  Forall (fun src => In src pool) (inflight b)
  /\ match getResolvedTexture b with
     | None => True
     | Some t => exists src, In src pool /\ t = corrected colorManagement src
     end.

(** ** Sample inputs *)

Definition identity4 : Matrix4 :=
  mkMatrix4 [1; 0; 0; 0;  0; 1; 0; 0;  0; 0; 1; 0;  0; 0; 0; 1]%R.

Definition sample_camera : Camera := mkCamera (mkLayers 1) identity4.

Definition sample_texture : Texture := mkTexture "gobo.png" sRGBEncoding.

Definition entity_bound : Entity :=
  mkEntity
    {["spotlight-texture" :=
        mkSpotlightTexture "gobo.png" 2%R (Some sample_texture)]}
    ∅.

Definition entity_unbound : Entity := mkEntity ∅ ∅.

Definition entity_with_mesh : Entity :=
  mkEntity ∅ {["mesh" := mkMesh (Some 7%nat)]}.

Definition entity_with_group : Entity :=
  mkEntity ∅ {["mesh" := mkMesh None]}.

Definition sample_object (id : nat) (vis light spot shadow : bool)
    (layer : Z) (e : option Entity) (cs : list Object3D) : Object3D :=
  Object3DNode
    (mkObject3DData id vis light spot shadow (mkLayers layer) identity4 e) cs.

Definition light1 := sample_object 1 true true true false 1 (Some entity_unbound) [].
Definition ambient2 := sample_object 2 true true false false 1 (Some entity_unbound) [].
Definition light3 := sample_object 3 true true true true 1 (Some entity_bound) [].
Definition light4 := sample_object 4 true true true true 1 (Some entity_bound) [].
Definition hidden5 := sample_object 5 false false false false 1 None [light4].
Definition light6 := sample_object 6 true true true true 2 (Some entity_bound) [].
Definition light7 := sample_object 7 true true true false 3 (Some entity_bound) [].
Definition group8 := sample_object 8 true false false false 1 None [light6; light7].
Definition raw9 := sample_object 9 true true true false 1 None [].

Definition sample_scene : Object3D :=
  sample_object 0 true false false false 1 None
    [light1; ambient2; light3; hidden5; group8].

Definition sample_system : SpotlightsSystem :=
  tick sample_scene sample_camera (mkSpotlightsSystem []).

Definition sample_shader : ShaderObject :=
  mkShaderObject {["diffuse" := OtherValue 0]}.

Definition sample_world : World :=
  mkWorld (mkSpotlightsSystem []) sample_camera (mkReceiver 7 None).

Definition sample_binding : Binding :=
  mkBinding (mkSpotlightTexture "" 10%R None) [].

Definition sample_pars_chunk : string :=
  join_newline
    ["uniform vec3 ambientLightColor;"; "#if NUM_SPOT_LIGHTS > 0";
     "  struct SpotLight { vec3 position; };"; "#endif"; "#if NUM_RECT > 0";
     "#endif"]%string.

Definition sample_chunk_without_markers : string :=
  join_newline ["void main() {"; "}"]%string.

Definition sample_chunk_without_end : string :=
  join_newline ["precision highp float;"; "#if NUM_SPOT_LIGHTS > 0";
                "  struct SpotLight { vec3 position; };"]%string.

(** Two more shaded points for the sample light of the shader: one
    beside the light, at right angles to its axis, and one three times
    as far down the axis as [GLSL.on_straight_axis]. *)
Definition beside_straight_light : GLSL.GeometricContext :=
  GLSL.mkGeometricContext (GLSL.mkVec3 2 0 0) (GLSL.mkVec3 0 0 1)
    (GLSL.mkVec3 0 0 1).
Definition further_on_straight_axis : GLSL.GeometricContext :=
  GLSL.mkGeometricContext (GLSL.mkVec3 0 0 (-6)) (GLSL.mkVec3 0 0 1)
    (GLSL.mkVec3 0 0 1).

(** * Properties *)

(** ** The light registry *)

Lemma collect_spec camera o acc :
  collect camera o acc = acc ++ List.filter (inLayerSpot camera) [o].
Proof.
  unfold collect, inLayerSpot, Layers_test; simpl.
  destruct (_ && _ && _); [reflexivity | now rewrite app_nil_r].
Qed.

Lemma traverse_children camera cs :
  Forall (fun c => forall acc,
            traverseVisible (collect camera) c acc
            = acc ++ List.filter (inLayerSpot camera) (visibleNodes c)) cs ->
  forall acc,
    fold_left (fun acc c => traverseVisible (collect camera) c acc) cs acc
    = acc ++ List.filter (inLayerSpot camera) (flat_map visibleNodes cs).
Proof.
  induction 1 as [| c cs Hc _ IH]; intros acc; simpl.
  - now rewrite app_nil_r.
  - rewrite Hc, IH, List.filter_app, app_assoc. reflexivity.
Qed.

Lemma traverseVisible_collect camera o :
  forall acc,
    traverseVisible (collect camera) o acc
    = acc ++ List.filter (inLayerSpot camera) (visibleNodes o).
Proof.
  induction o as [d cs IH] using Object3D_nested_ind; intros acc.
  simpl. destruct (visible d) eqn:Hv.
  - rewrite (traverse_children camera cs IH), collect_spec.
    rewrite <- app_assoc. f_equal.
    change (Object3DNode d cs :: flat_map visibleNodes cs)
      with ([Object3DNode d cs] ++ flat_map visibleNodes cs).
    now rewrite List.filter_app.
  - now rewrite app_nil_r.
Qed.

Lemma visibleNodes_visibleFrom root o :
  In o (visibleNodes root) <-> visibleFrom root o.
Proof.
  revert o. induction root as [d cs IH] using Object3D_nested_ind; intros o.
  rewrite List.Forall_forall in IH. simpl. split.
  - destruct (visible d) eqn:Hv; [| intros []].
    intros [<- | Hin]; [now constructor |].
    apply in_flat_map in Hin as (c & Hc & Ho).
    apply (visible_below d cs c o Hv Hc). now apply IH.
  - inversion 1 as [d' cs' Hv | d' cs' c o' Hv Hc Ho]; subst; rewrite Hv.
    + now left.
    + right. apply in_flat_map. exists c. split; [assumption |].
      now apply IH.
Qed.

(** The comparator of line 18 makes the stable sort a stable partition. *)
Lemma sort_insert_partition x front back :
  Forall (fun o => casts o = true) front ->
  Forall (fun o => casts o = false) back ->
  sort_insert byCastShadow x (front ++ back)
  = if casts x then x :: front ++ back else front ++ x :: back.
Proof.
  intros Hf Hb. unfold casts in *.
  induction Hf as [| y front Hy _ IH]; simpl.
  - destruct Hb as [| y back Hy _]; simpl.
    + now destruct (castShadow (props x)).
    + unfold byCastShadow. rewrite Hy. now destruct (castShadow (props x)).
  - unfold byCastShadow at 1. rewrite Hy.
    destruct (castShadow (props x)) eqn:Hx; simpl; [reflexivity |].
    now rewrite IH.
Qed.

Lemma Array_sort_byCastShadow l :
  Array_sort byCastShadow l = List.filter casts l ++ List.filter castsNot l.
Proof.
  induction l as [| x l IH]; [reflexivity |].
  simpl. rewrite IH, sort_insert_partition.
  - unfold castsNot, casts. now destruct (castShadow (props x)).
  - apply List.Forall_forall. intros o Ho. now apply filter_In in Ho.
  - apply List.Forall_forall. intros o Ho. apply filter_In in Ho as [_ Ho].
    unfold castsNot in Ho. now apply negb_true_iff in Ho.
Qed.

Lemma partition_Permutation {A} (f : A -> bool) l :
  Permutation (List.filter f l ++ List.filter (fun a => negb (f a)) l) l.
Proof.
  induction l as [| a l IH]; [constructor |].
  simpl. destruct (f a); simpl.
  - now constructor.
  - symmetry. apply Permutation_cons_app. now symmetry.
Qed.

Lemma tick_spotLights scene camera this :
  spotLights (tick scene camera this)
  = Array_sort byCastShadow
      (List.filter (inLayerSpot camera) (visibleNodes scene)).
Proof.
  unfold tick. simpl. now rewrite traverseVisible_collect.
Qed.

(** C2.  After [tick], the registry holds exactly the objects of the
    visible part of the scene that are lights, are spotlights and share a
    layer with the camera: it is a rearrangement of them, as long as their
    count, an object is a member iff it is one of them, non-spotlights and
    out-of-layer objects are absent, and a scene that consists of a bare
    non-light root gives the empty list. *)
Theorem tick_collects_visible_spotlights scene camera this :
  let out := spotLights (tick scene camera this) in
  let expected := List.filter (inLayerSpot camera) (visibleNodes scene) in
  Permutation out expected
  /\ List.length out = List.length expected
  /\ (forall o, In o out <->
        visibleFrom scene o
        /\ isLight (props o) = true /\ isSpotLight (props o) = true
        /\ Z.land (mask (layers (props o))) (mask (camera_layers camera)) <> 0%Z)
  /\ (forall o, isSpotLight (props o) = false -> ~ In o out)
  /\ (forall o,
        Z.land (mask (layers (props o))) (mask (camera_layers camera)) = 0%Z ->
        ~ In o out)
  /\ (forall d, isSpotLight d = false ->
        spotLights (tick (Object3DNode d []) camera this) = []).
Proof.
  intros out expected.
  assert (Hperm : Permutation out expected).
  { unfold out. rewrite tick_spotLights, Array_sort_byCastShadow.
    apply (partition_Permutation casts). }
  assert (Hmem : forall o, In o out <->
            visibleFrom scene o
            /\ isLight (props o) = true /\ isSpotLight (props o) = true
            /\ Z.land (mask (layers (props o))) (mask (camera_layers camera))
               <> 0%Z).
  { intros o. split.
    - intros Hin. apply (Permutation_in _ Hperm) in Hin.
      apply filter_In in Hin as [Hv Hw].
      apply visibleNodes_visibleFrom in Hv. unfold inLayerSpot in Hw.
      apply andb_true_iff in Hw as [Hw Hl].
      apply andb_true_iff in Hw as [Hw1 Hw2].
      apply negb_true_iff, Z.eqb_neq in Hl. auto.
    - intros (Hv & H1 & H2 & H3).
      apply (Permutation_in _ (Permutation_sym Hperm)).
      apply filter_In. split; [now apply visibleNodes_visibleFrom |].
      unfold inLayerSpot. rewrite H1, H2. simpl.
      apply negb_true_iff, Z.eqb_neq, H3. }
  split; [exact Hperm |].
  split; [now apply Permutation_length |].
  split; [exact Hmem |].
  split; [| split].
  - intros o Hs Hin. apply Hmem in Hin as (_ & _ & Hs' & _). congruence.
  - intros o Hz Hin. apply Hmem in Hin as (_ & _ & _ & Hl). contradiction.
  - intros d Hd. rewrite tick_spotLights. simpl.
    destruct (visible d); [| reflexivity].
    simpl. unfold inLayerSpot. simpl. rewrite Hd, andb_false_r. reflexivity.
Qed.

Lemma precedes_filter {A} (f : A -> bool) a b l :
  f a = true -> f b = true -> precedes a b l -> precedes a b (List.filter f l).
Proof.
  intros Ha Hb (l1 & l2 & l3 & ->).
  exists (List.filter f l1), (List.filter f l2), (List.filter f l3).
  rewrite List.filter_app. simpl. rewrite Ha, List.filter_app. simpl.
  now rewrite Hb.
Qed.

Lemma precedes_app_l {A} (a b : A) l l' :
  precedes a b l -> precedes a b (l ++ l').
Proof.
  intros (l1 & l2 & l3 & ->). exists l1, l2, (l3 ++ l').
  repeat (rewrite <- app_assoc; simpl). reflexivity.
Qed.

Lemma precedes_app_r {A} (a b : A) l l' :
  precedes a b l' -> precedes a b (l ++ l').
Proof.
  intros (l1 & l2 & l3 & ->). exists (l ++ l1), l2, l3.
  now rewrite <- app_assoc.
Qed.

Lemma precedes_across {A} (a b : A) l l' :
  In a l -> In b l' -> precedes a b (l ++ l').
Proof.
  intros Ha Hb.
  apply in_split in Ha as (l1 & l2 & ->).
  apply in_split in Hb as (l3 & l4 & ->).
  exists l1, (l2 ++ l3), l4.
  repeat (rewrite <- app_assoc; simpl). reflexivity.
Qed.

Lemma precedes_In {A} (a b : A) l : precedes a b l -> In a l /\ In b l.
Proof.
  intros (l1 & l2 & l3 & ->). split.
  - apply in_or_app. right. now left.
  - apply in_or_app. right. right. apply in_or_app. right. now left.
Qed.

(** In a list made of a block satisfying [f] followed by a block that
    does not, nothing outside [f] comes before something inside. *)
Lemma no_inversion {A} (f : A -> bool) a b front back :
  Forall (fun x => f x = true) front ->
  Forall (fun x => f x = false) back ->
  f a = true -> f b = false ->
  ~ precedes b a (front ++ back).
Proof.
  intros Hf Hb Ha Hnb (l1 & l2 & l3 & Heq).
  rewrite List.Forall_forall in Hf, Hb.
  apply app_eq_app in Heq as [l [[-> Hl] | [-> Hl]]].
  - destruct l as [| y l].
    + simpl in Hl. subst back.
      assert (In a (b :: l2 ++ a :: l3)) as Hin
        by (right; apply in_or_app; right; now left).
      apply Hb in Hin. congruence.
    + injection Hl as Hy _. subst y.
      assert (In b (l1 ++ b :: l)) as Hin
        by (apply in_or_app; right; now left).
      apply Hf in Hin. congruence.
  - assert (In a back) as Hin.
    { rewrite Hl. apply in_or_app. right. right. apply in_or_app. right.
      now left. }
    apply Hb in Hin. congruence.
Qed.

(** C3.  The registry after [tick] is the stable partition of the
    collected sequence on [castShadow]: the shadow-casting lights in
    traversal order followed by the others in traversal order.  Every
    shadow-casting light comes before every other light and never after
    one, and two lights with the same flag keep their traversal order. *)
Theorem tick_stable_partition scene camera this :
  let collected := traverseVisible (collect camera) scene [] in
  let out := spotLights (tick scene camera this) in
  out = List.filter casts collected ++ List.filter castsNot collected
  /\ (forall a b, In a out -> In b out ->
        castShadow (props a) = true -> castShadow (props b) = false ->
        precedes a b out /\ ~ precedes b a out)
  /\ (forall a b, castShadow (props a) = castShadow (props b) ->
        precedes a b collected -> precedes a b out).
Proof.
  intros collected out.
  assert (Hout : out = List.filter casts collected
                       ++ List.filter castsNot collected)
    by apply Array_sort_byCastShadow.
  assert (Hfront : Forall (fun x => casts x = true)
                     (List.filter casts collected)).
  { apply List.Forall_forall. intros x Hx. now apply filter_In in Hx. }
  assert (Hback : Forall (fun x => casts x = false)
                    (List.filter castsNot collected)).
  { apply List.Forall_forall. intros x Hx. apply filter_In in Hx as [_ Hx].
    now apply negb_true_iff in Hx. }
  rewrite List.Forall_forall in Hfront, Hback.
  split; [exact Hout |]. rewrite Hout. split.
  - intros a b Ha Hb Hca Hcb. split.
    + apply precedes_across.
      * apply in_app_or in Ha as [Ha | Ha]; [exact Ha |].
        apply Hback in Ha. unfold casts in Ha. congruence.
      * apply in_app_or in Hb as [Hb | Hb]; [| exact Hb].
        apply Hfront in Hb. unfold casts in Hb. congruence.
    + apply (no_inversion casts); try assumption;
        now apply List.Forall_forall.
  - intros a b Hab Hprec.
    destruct (castShadow (props a)) eqn:Hca.
    + apply precedes_app_l, precedes_filter; unfold casts; auto.
    + apply precedes_app_r, precedes_filter; unfold castsNot;
        rewrite <- ?Hab, ?Hca; auto.
Qed.

(** ** The texture binding *)

Section BindingFacts.
Variable colorManagement : bool.

Lemma image_src_corrected src :
  image_src (corrected colorManagement src) = src.
Proof. unfold corrected, applyColorCorrection. now destruct colorManagement. Qed.

Lemma setSource_changed b id :
  id <> data_src (component b) ->
  setSource id b
  = mkBinding (mkSpotlightTexture id (data_intensity (component b)) None)
              (inflight b ++ [id]).
Proof.
  intros Hne. unfold setSource, update. simpl.
  destruct (decide _) as [Heq | _]; [congruence | reflexivity].
Qed.

Lemma setSource_same b :
  setSource (data_src (component b)) b = b.
Proof.
  unfold setSource, update. simpl.
  destruct (decide _) as [_ | Hne]; [| congruence].
  now destruct b as [[] ?].
Qed.


Lemma deliverAll_cons ev evs b :
  deliverAll colorManagement (ev :: evs) b
  = deliverAll colorManagement evs (deliver colorManagement ev b).
Proof. reflexivity. Qed.


(** Events that never reach the callback. *)
Lemma failures_keep_component evs : forall b,
  Forall (fun ev => exists k, ev = Failed k) evs ->
  component (deliverAll colorManagement evs b) = component b.
Proof.
  induction evs as [| ev evs IH]; intros b Hall; [reflexivity |].
  apply List.Forall_cons_iff in Hall as [[k ->] Hall].
  rewrite deliverAll_cons. now rewrite IH.
Qed.

Lemma deliver_onlyFor id ev b :
  onlyFor id b -> onlyFor id (deliver colorManagement ev b).
Proof.
  intros [Hin Htex]. destruct ev as [k | k]; simpl.
  - destruct (inflight b !! k) as [src |] eqn:Hk; [| now split].
    split; simpl.
    + now apply Forall_delete.
    + change (image_src (corrected colorManagement src) = id).
      rewrite image_src_corrected.
      rewrite Forall_lookup in Hin. exact (Hin _ _ Hk).
  - split; [now apply Forall_delete | exact Htex].
Qed.

Lemma deliverAll_onlyFor id evs : forall b,
  onlyFor id b -> onlyFor id (deliverAll colorManagement evs b).
Proof.
  induction evs as [| ev evs IH]; intros b Hb; [exact Hb |].
  apply (IH (deliver colorManagement ev b)), deliver_onlyFor, Hb.
Qed.


(** C6, amended.  [setSource] with a new id clears the resolved texture
    and queues the load; failed loads leave it absent; when no earlier
    load is in flight, whatever the loader does next, the texture is
    absent or the new id's, and the new id's completion resolves it. *)
Theorem setSource_clears_until_a_load_completes b id :
  id <> data_src (component b) ->
  let b' := setSource id b in
  getResolvedTexture b' = None
  /\ inflight b' = inflight b ++ [id]
  /\ (forall evs, Forall (fun ev => exists k, ev = Failed k) evs ->
        getResolvedTexture (deliverAll colorManagement evs b') = None)
  /\ (inflight b = [] ->
      forall evs,
        match getResolvedTexture (deliverAll colorManagement evs b') with
        | None => True
        | Some t => image_src t = id
        end)
  /\ (inflight b = [] ->
      getResolvedTexture (deliver colorManagement (Loaded 0) b')
      = Some (corrected colorManagement id)).
Proof.
  intros Hne b'. unfold b'. rewrite (setSource_changed b id Hne).
  split; [reflexivity |]. split; [reflexivity |]. split; [| split].
  - intros evs Hall. unfold getResolvedTexture.
    now rewrite failures_keep_component.
  - intros Hnone evs. rewrite Hnone.
    apply (deliverAll_onlyFor id evs). split; simpl; [| exact I].
    repeat constructor.
  - intros Hnone. rewrite Hnone. reflexivity.
Qed.
End BindingFacts.

(** ** Publication of the per-light data *)

Lemma buildAux_length camera lights : forall extras textures e t,
  buildAux camera lights extras textures = Normal (e, t) ->
  List.length e = (List.length extras + List.length lights)%nat
  /\ List.length t = (List.length textures + List.length lights)%nat.
Proof.
  induction lights as [| spotLight rest IH]; intros extras textures e t Hb.
  - injection Hb as <- <-. simpl. lia.
  - simpl in Hb. destruct (auxFor camera spotLight) as [[a tx] | err];
      [| discriminate].
    apply IH in Hb. rewrite !length_app in Hb. simpl in *. lia.
Qed.

Lemma auxFor_with_entity camera spotLight e :
  el (props spotLight) = Some e ->
  exists a t, auxFor camera spotLight = Normal (a, t).
Proof. intros He. unfold auxFor. rewrite He. eauto. Qed.

Lemma auxFor_without_entity camera spotLight :
  el (props spotLight) = None -> auxFor camera spotLight = Throw TypeError.
Proof. intros He. unfold auxFor. now rewrite He. Qed.

Lemma buildAux_total camera lights : forall extras textures,
  Forall (fun o => el (props o) <> None) lights ->
  exists e t, buildAux camera lights extras textures = Normal (e, t).
Proof.
  induction lights as [| spotLight rest IH]; intros extras textures Hall.
  - simpl. eauto.
  - apply List.Forall_cons_iff in Hall as [Hel Hall].
    destruct (el (props spotLight)) as [e |] eqn:He; [| congruence].
    destruct (auxFor_with_entity camera spotLight e He) as (a & t & Ha).
    simpl. rewrite Ha. simpl. apply IH, Hall.
Qed.

Lemma updateUniforms_inv system so camera so' :
  updateUniforms system so camera = Normal so' ->
  exists e t,
    buildAux camera (spotLights system) [] [] = Normal (e, t)
    /\ uniforms so'
       = <["spotLightTextures" := SpotLightTexturesValue t]>
           (<["spotLightExs" := SpotLightExsValue e]> (uniforms so)).
Proof.
  unfold updateUniforms.
  destruct (buildAux camera (spotLights system) [] []) as [[e t] | err];
    simpl; [| discriminate].
  intros [= <-]. now exists e, t.
Qed.

Lemma updateUniforms_published system so camera so' :
  updateUniforms system so camera = Normal so' ->
  exists e t,
    published so' = Some (e, t)
    /\ List.length e = List.length (spotLights system)
    /\ List.length t = List.length (spotLights system).
Proof.
  intros Hu. apply updateUniforms_inv in Hu as (e & t & Hb & Hun).
  exists e, t. split.
  - unfold published. rewrite Hun.
    rewrite lookup_insert_ne by done. rewrite !lookup_insert_eq. reflexivity.
  - apply buildAux_length in Hb. simpl in Hb. exact Hb.
Qed.

Lemma updateUniforms_total system so camera :
  Forall (fun o => el (props o) <> None) (spotLights system) ->
  exists so', updateUniforms system so camera = Normal so'.
Proof.
  intros Hall. unfold updateUniforms.
  destruct (buildAux_total camera (spotLights system) [] [] Hall)
    as (e & t & ->).
  simpl. eauto.
Qed.

(** Publishing again into the object just published changes nothing. *)
Lemma updateUniforms_again system so camera so' :
  updateUniforms system so camera = Normal so' ->
  updateUniforms system so' camera = Normal so'.
Proof.
  intros Hu. pose proof Hu as Hinv.
  apply updateUniforms_inv in Hinv as (e & t & Hb & Hun).
  unfold updateUniforms. rewrite Hb. simpl. f_equal.
  destruct so' as [u']. simpl in *. f_equal. subst u'.
  rewrite (insert_insert_ne _ "spotLightExs" "spotLightTextures") by done.
  now rewrite !insert_insert_eq.
Qed.

(** The result does not depend on what was published before. *)
Lemma updateUniforms_same_registry system so camera so1 so2 :
  updateUniforms system so camera = Normal so1 ->
  updateUniforms system so1 camera = Normal so2 ->
  so2 = so1.
Proof.
  intros H1 H2. apply updateUniforms_again in H1. congruence.
Qed.

Lemma frameRun_app w evs evs' :
  frameRun w (evs ++ evs')
  = w1 ← frameRun w evs; frameRun w1 evs'.
Proof.
  revert w. induction evs as [| ev evs IH]; intros w; [reflexivity |].
  simpl. destruct (frameStep w ev) as [w1 | err]; simpl; [apply IH | reflexivity].
Qed.

Lemma frameStep_publish w ev w' :
  publishes ev = true ->
  frameStep w ev = Normal w' ->
  system w' = system w
  /\ forall so, shaderObject (receiver w') = Some so ->
       exists e t,
         published so = Some (e, t)
         /\ List.length e = List.length (spotLights (system w))
         /\ List.length t = List.length (spotLights (system w)).
Proof.
  intros Hp Hs. destruct ev as [scene | shader | camera]; [discriminate | |];
    simpl in Hs.
  - unfold onBeforeCompile in Hs.
    destruct (updateUniforms (system w) shader (sceneCamera w))
      as [so' | err] eqn:Hu; simpl in Hs; [| discriminate].
    injection Hs as <-. simpl. split; [reflexivity |].
    intros so [= <-]. eapply updateUniforms_published, Hu.
  - unfold onBeforeRender in Hs.
    destruct (shaderObject (receiver w)) as [so0 |] eqn:Hso.
    + destruct (updateUniforms (system w) so0 camera) as [so' | err] eqn:Hu;
        simpl in Hs; [| discriminate].
      injection Hs as <-. simpl. split; [reflexivity |].
      intros so [= <-]. eapply updateUniforms_published, Hu.
    + simpl in Hs. injection Hs as <-. simpl. split; [reflexivity |].
      intros so Hso'. congruence.
Qed.

(** C4.  Take any run of frames - ticks over arbitrarily changed scenes,
    compiles, renders - that ends in a compile or a render.  If that last
    step publishes, the published [spotLightExs] and [spotLightTextures]
    arrays both have the length of the registry as it is then; and the
    step does complete whenever every registered light has its entity. *)
Theorem publish_lengths_match_registry w evs ev :
  publishes ev = true ->
  (forall w', frameRun w (evs ++ [ev]) = Normal w' ->
     forall so, shaderObject (receiver w') = Some so ->
       exists e t,
         published so = Some (e, t)
         /\ List.length e = List.length (spotLights (system w'))
         /\ List.length t = List.length (spotLights (system w')))
  /\ (forall w1, frameRun w evs = Normal w1 ->
        Forall (fun o => el (props o) <> None) (spotLights (system w1)) ->
        exists w', frameRun w (evs ++ [ev]) = Normal w').
Proof.
  intros Hp. split.
  - intros w' Hrun so Hso. rewrite frameRun_app in Hrun.
    destruct (frameRun w evs) as [w1 | err]; simpl in Hrun; [| discriminate].
    destruct (frameStep w1 ev) as [w2 | err] eqn:Hstep; simpl in Hrun;
      [| discriminate].
    injection Hrun as <-.
    destruct (frameStep_publish w1 ev w2 Hp Hstep) as [Hsys Hpub].
    rewrite Hsys. now apply Hpub.
  - intros w1 Hrun Hall. rewrite frameRun_app, Hrun. simpl.
    destruct ev as [scene | shader | camera]; [discriminate | |]; simpl.
    + unfold onBeforeCompile.
      destruct (updateUniforms_total (system w1) shader (sceneCamera w1) Hall)
        as [so' ->].
      simpl. eauto.
    + unfold onBeforeRender.
      destruct (shaderObject (receiver w1)) as [so0 |]; simpl; [| eauto].
      destruct (updateUniforms_total (system w1) so0 camera Hall) as [so' ->].
      simpl. eauto.
Qed.

(** C5, amended.  For a registered spotlight whose entity carries no
    [spotlight-texture] component, the entry built has [hasTexture] false
    and no intensity at all, and the texture slot is left empty. *)
Theorem aux_without_binding camera spotLight e :
  el (props spotLight) = Some e ->
  components e !! "spotlight-texture" = None ->
  exists a,
    auxFor camera spotLight = Normal (a, None)
    /\ hasTexture a = false
    /\ intensity a = None.
Proof.
  intros He Hc. unfold auxFor. rewrite He, Hc. simpl.
  eexists. split; [reflexivity |]. split; reflexivity.
Qed.

(** C10.  [init] on an entity whose [object3DMap] has no ['mesh'] entry
    throws a [TypeError]: the mesh has to be there before the component
    initialises. *)
Theorem init_without_mesh_throws this_el :
  object3DMap this_el !! "mesh" = None ->
  init this_el = Throw TypeError.
Proof. intros Hm. unfold init. now rewrite Hm. Qed.

(** ** Checks on the sample inputs *)

Example tick_sample :
  spotLights sample_system = [light3; light1; light7].
Proof. reflexivity. Qed.

Example tick_empty_scene :
  spotLights (tick (sample_object 0 true false false false 1 None [])
                   sample_camera sample_system) = [].
Proof. reflexivity. Qed.

Example setSource_sample :
  setSource "a.png" sample_binding
  = mkBinding (mkSpotlightTexture "a.png" 10%R None) ["a.png"%string].
Proof. reflexivity. Qed.

(** ** Re-invoking the two entry points *)

Lemma iterate_fixed {A} (f : A -> Completion A) a n :
  f a = Normal a -> iterate n f a = Normal a.
Proof.
  intros Hf. induction n as [| n IH]; [reflexivity |].
  simpl. rewrite Hf. exact IH.
Qed.

Lemma onBeforeRender_again system camera r r' :
  onBeforeRender system camera r = Normal r' ->
  onBeforeRender system camera r' = Normal r'.
Proof.
  unfold onBeforeRender. destruct (shaderObject r) as [so |] eqn:Hso.
  - destruct (updateUniforms system so camera) as [so' | err] eqn:Hu;
      simpl; [| discriminate].
    intros [= <-]. simpl. now rewrite (updateUniforms_again _ _ _ _ Hu).
  - intros [= <-]. now rewrite Hso.
Qed.

Lemma onBeforeCompile_again system camera shader r r' so' :
  onBeforeCompile system camera shader r = Normal r' ->
  shaderObject r' = Some so' ->
  onBeforeCompile system camera so' r' = Normal r'.
Proof.
  unfold onBeforeCompile.
  destruct (updateUniforms system shader camera) as [so1 | err] eqn:Hu;
    simpl; [| discriminate].
  intros [= <-]. simpl. intros [= <-].
  now rewrite (updateUniforms_again _ _ _ _ Hu).
Qed.

(** C7.  Both entry points can be re-invoked freely.  Once a render-time
    rebuild has completed, any number of further rebuilds with the same
    registry and camera return the very same state; the same holds for the
    compile-time rebuild, called again on the shader object it published
    into or on an object with the original contents, and a render after a
    compile with the same camera changes nothing.  Before any compile the
    render-time entry point returns the state untouched. *)
Theorem entry_points_idempotent system camera shader r :
  (forall r', onBeforeRender system camera r = Normal r' ->
     forall n, iterate n (onBeforeRender system camera) r' = Normal r')
  /\ (forall r' so', onBeforeCompile system camera shader r = Normal r' ->
        shaderObject r' = Some so' ->
        (forall n, iterate n (onBeforeCompile system camera so') r'
                   = Normal r')
        /\ onBeforeCompile system camera shader r' = Normal r'
        /\ onBeforeRender system camera r' = Normal r')
  /\ (shaderObject r = None -> onBeforeRender system camera r = Normal r).
Proof.
  split; [| split].
  - intros r' Hr n. apply iterate_fixed. eapply onBeforeRender_again, Hr.
  - intros r' so' Hc Hso. split; [| split].
    + intros n. apply iterate_fixed. eapply onBeforeCompile_again; eauto.
    + revert Hc. unfold onBeforeCompile.
      destruct (updateUniforms system shader camera) as [so1 | err];
        simpl; [| discriminate].
      now intros [= <-].
    + pose proof (onBeforeCompile_again _ _ _ _ _ _ Hc Hso) as Hagain.
      revert Hagain. unfold onBeforeCompile, onBeforeRender. rewrite Hso.
      now destruct (updateUniforms system so' camera).
  - intros Hnone. unfold onBeforeRender. now rewrite Hnone.
Qed.

(** ** Concrete instances *)



(** C6 as stated fails: after switching to ["b.png"], the completion of
    the earlier load for ["a.png"] resolves the texture while the load
    for ["b.png"] is still in flight. *)
Lemma setSource_stale_load_resolves :
  getResolvedTexture (setSource "b.png" (setSource "a.png" sample_binding))
  = None
  /\ inflight (deliver true (Loaded 0)
                 (setSource "b.png" (setSource "a.png" sample_binding)))
     = ["b.png"%string]
  /\ getResolvedTexture
       (deliver true (Loaded 0)
          (setSource "b.png" (setSource "a.png" sample_binding)))
     = Some (mkTexture "a.png" sRGBEncoding)
  /\ getResolvedTexture
       (deliver true (Loaded 0)
          (setSource "b.png" (setSource "a.png" sample_binding)))
     <> None.
Proof.
  split; [reflexivity |]. split; [reflexivity |].
  split; [reflexivity | discriminate].
Qed.

Lemma setSource_clears_witness :
  "a.png"%string <> data_src (component sample_binding)
  /\ getResolvedTexture (setSource "a.png" sample_binding) = None
  /\ getResolvedTexture
       (deliver true (Loaded 0) (setSource "a.png" sample_binding))
     = Some (mkTexture "a.png" sRGBEncoding).
Proof.
  assert (H1 : "a.png"%string <> data_src (component sample_binding))
    by discriminate.
  pose proof (setSource_clears_until_a_load_completes
                true sample_binding "a.png" H1) as (Hc & _ & _ & _ & Hl).
  split; [exact H1 |]. split; [exact Hc |]. exact (Hl eq_refl).
Defined.

Lemma publish_lengths_witness :
  publishes (Render sample_camera) = true
  /\ forall w',
       frameRun sample_world
         ([Tick sample_scene; Compile sample_shader; Tick light1]
          ++ [Render sample_camera]) = Normal w' ->
       forall so, shaderObject (receiver w') = Some so ->
         exists e t,
           published so = Some (e, t)
           /\ List.length e = List.length (spotLights (system w'))
           /\ List.length t = List.length (spotLights (system w')).
Proof.
  split; [reflexivity |].
  exact (proj1 (publish_lengths_match_registry sample_world
                  [Tick sample_scene; Compile sample_shader; Tick light1]
                  (Render sample_camera) eq_refl)).
Defined.

Example publish_sample :
  match frameRun sample_world
          [Tick sample_scene; Compile sample_shader; Tick light1;
           Render sample_camera] with
  | Normal w' =>
      List.length (spotLights (system w')) = 1%nat
      /\ (so ← shaderObject (receiver w'); et ← published so;
          Some (List.length et.1, List.length et.2)) = Some (1%nat, 1%nat)
  | Throw _ => False
  end.
Proof. split; reflexivity. Qed.

(** C5 as stated fails: for [light1], whose entity has no binding, the
    entry carries no intensity and the texture slot holds no texture. *)
Lemma aux_without_binding_has_no_default :
  match auxFor sample_camera light1 with
  | Normal (a, slot) =>
      hasTexture a = false /\ intensity a = None /\ slot = None
  | Throw _ => False
  end.
Proof. simpl. split; [reflexivity |]. split; reflexivity. Qed.

Lemma aux_without_binding_witness :
  el (props light1) = Some entity_unbound
  /\ components entity_unbound !! "spotlight-texture" = None
  /\ exists a,
       auxFor sample_camera light1 = Normal (a, None)
       /\ hasTexture a = false
       /\ intensity a = None.
Proof.
  split; [reflexivity |]. split; [reflexivity |].
  exact (aux_without_binding sample_camera light1 entity_unbound
           eq_refl eq_refl).
Defined.

Lemma init_without_mesh_witness :
  object3DMap entity_unbound !! "mesh" = None
  /\ init entity_unbound = Throw TypeError.
Proof.
  split; [reflexivity |].
  exact (init_without_mesh_throws entity_unbound eq_refl).
Defined.

Example init_with_mesh :
  init entity_with_mesh = Normal (mkReceiver 7 None).
Proof. reflexivity. Qed.

Example init_with_group :
  init entity_with_group = Throw TypeError.
Proof. reflexivity. Qed.

Example render_before_compile :
  onBeforeRender sample_system sample_camera (mkReceiver 7 None)
  = Normal (mkReceiver 7 None).
Proof. reflexivity. Qed.

Example raw_light_throws :
  updateUniforms (mkSpotlightsSystem [light3; raw9]) sample_shader
    sample_camera = Throw TypeError.
Proof. reflexivity. Qed.

(** ** The patched evaluation routine *)

Module GLSLFacts.
Import GLSL.
Local Open Scope R_scope.

Lemma branch_always_taken a : gt a 0 || le a 0 = true.
Proof.
  unfold gt, le. destruct (Rlt_dec 0 a), (Rle_dec a 0); simpl; auto; lra.
Qed.

Lemma l_direction_spec `{HostChunk} spotLight spotLightEx tex geometry :
  l_direction (getSpotLightInfo spotLight spotLightEx tex geometry)
  = normalize (vsub (position spotLight) (g_position geometry)).
Proof.
  unfold getSpotLightInfo. now rewrite branch_always_taken.
Qed.

Lemma l_color_spec `{HostChunk} spotLight spotLightEx tex geometry :
  let lVector := vsub (position spotLight) (g_position geometry) in
  let light_direction := normalize lVector in
  let spotAttenuation :=
    getSpotAttenuation (coneCos spotLight) (penumbraCos spotLight)
      (dot light_direction (direction spotLight)) in
  l_color (getSpotLightInfo spotLight spotLightEx tex geometry)
  = vscale
      (vscale
         (if hasTexture spotLightEx
          then vscale
                 (rgb (texture tex
                         (samplePointFor spotLight spotLightEx
                            light_direction)))
                 (intensity spotLightEx)
          else color spotLight)
         spotAttenuation)
      (getDistanceAttenuation (length lVector) (distance spotLight)
         (decay spotLight)).
Proof.
  simpl. unfold getSpotLightInfo. now rewrite branch_always_taken.
Qed.

(** A point at distance [t] down the axis of a light: the vector back
    to the light is [t] times the light's direction. *)
Lemma on_axis_lVector p d t :
  vsub p (vsub p (vscale d t)) = vscale d t.
Proof. unfold vsub, vscale. simpl. f_equal; ring. Qed.

Lemma length_vscale_unit d t :
  0 < t -> dot d d = 1 -> length (vscale d t) = t.
Proof.
  intros Ht Hd. unfold length.
  replace (dot (vscale d t) (vscale d t)) with (t * t).
  - apply sqrt_square. lra.
  - unfold dot, vscale in *. simpl.
    replace (x3 d * t * (x3 d * t) + y3 d * t * (y3 d * t)
             + z3 d * t * (z3 d * t))
      with ((x3 d * x3 d + y3 d * y3 d + z3 d * z3 d) * (t * t)) by ring.
    rewrite Hd. ring.
Qed.

Lemma normalize_vscale_unit d t :
  0 < t -> dot d d = 1 -> normalize (vscale d t) = d.
Proof.
  intros Ht Hd. unfold normalize. rewrite (length_vscale_unit d t Ht Hd).
  destruct d as [x y z]. unfold vscale. simpl. f_equal; field; lra.
Qed.

Lemma left_is_orthogonal u d :
  dot d (normalize (cross u d)) = 0.
Proof. unfold normalize, dot, vscale, cross. simpl. ring. Qed.

Lemma centred_coordinate a : 0.5 + (acos 0 - PI / 2) / (2 * a) = 0.5.
Proof.
  rewrite acos_0. unfold Rminus. rewrite Rplus_opp_r.
  unfold Rdiv at 1. rewrite Rmult_0_l. lra.
Qed.

(** C9.  With [hasTexture] false the light colour is the light's own
    colour times the angular attenuation times the distance
    attenuation, whatever the texture and the other per-slot data. *)
Theorem untextured_light_color `{HostChunk} spotLight spotLightEx
    spotLightTexture geometry :
  hasTexture spotLightEx = false ->
  let lVector := vsub (position spotLight) (g_position geometry) in
  let spotAttenuation :=
    getSpotAttenuation (coneCos spotLight) (penumbraCos spotLight)
      (dot (normalize lVector) (direction spotLight)) in
  let distanceAttenuation :=
    getDistanceAttenuation (length lVector) (distance spotLight)
      (decay spotLight) in
  l_color (getSpotLightInfo spotLight spotLightEx spotLightTexture geometry)
  = vscale (vscale (color spotLight) spotAttenuation) distanceAttenuation.
Proof.
  intros Hno. simpl. rewrite l_color_spec. simpl. now rewrite Hno.
Qed.

(** C8, amended.  One spotlight with a bound texture and intensity 2,
    a shaded point at distance [t] on the light's axis, and the slot's
    up vector at right angles to the light's direction: the sample
    coordinate is (0.5, 0.5) and the light colour is the texture sample
    there times 2 times the angular attenuation on the axis times the
    distance attenuation; where the angular attenuation on the axis is
    1 this is the sample times 2 times the distance attenuation. *)
Theorem on_axis_sample_is_centre `{HostChunk} spotLight spotLightEx
    spotLightTexture geometry t :
  hasTexture spotLightEx = true ->
  intensity spotLightEx = 2 ->
  0 < t ->
  dot (direction spotLight) (direction spotLight) = 1 ->
  g_position geometry
  = vsub (position spotLight) (vscale (direction spotLight) t) ->
  dot (direction spotLight) (up spotLightEx) = 0 ->
  let light :=
    getSpotLightInfo spotLight spotLightEx spotLightTexture geometry in
  let sample := rgb (texture spotLightTexture (mkVec2 0.5 0.5)) in
  let onAxis :=
    getSpotAttenuation (coneCos spotLight) (penumbraCos spotLight) 1 in
  let distanceAttenuation :=
    getDistanceAttenuation t (distance spotLight) (decay spotLight) in
  l_direction light = direction spotLight
  /\ samplePointFor spotLight spotLightEx (l_direction light)
     = mkVec2 0.5 0.5
  /\ l_color light
     = vscale (vscale (vscale sample 2) onAxis) distanceAttenuation
  /\ (onAxis = 1 ->
      l_color light = vscale (vscale sample 2) distanceAttenuation).
Proof.
  intros Htex Hint Ht Hunit Hpos Hperp. simpl.
  assert (Hl : vsub (position spotLight) (g_position geometry)
               = vscale (direction spotLight) t)
    by (rewrite Hpos; apply on_axis_lVector).
  assert (Hdir : l_direction
                   (getSpotLightInfo spotLight spotLightEx spotLightTexture
                      geometry) = direction spotLight).
  { rewrite l_direction_spec, Hl. now apply normalize_vscale_unit. }
  assert (Hsample : samplePointFor spotLight spotLightEx
                      (direction spotLight) = mkVec2 0.5 0.5).
  { unfold samplePointFor. simpl.
    rewrite left_is_orthogonal, Hperp. now rewrite !centred_coordinate. }
  assert (Hcolor :
    l_color (getSpotLightInfo spotLight spotLightEx spotLightTexture geometry)
    = vscale
        (vscale (vscale (rgb (texture spotLightTexture (mkVec2 0.5 0.5))) 2)
           (getSpotAttenuation (coneCos spotLight) (penumbraCos spotLight) 1))
        (getDistanceAttenuation t (distance spotLight) (decay spotLight))).
  { rewrite l_color_spec. simpl. rewrite Htex, Hint, Hl.
    rewrite (normalize_vscale_unit _ t Ht Hunit), Hunit, Hsample.
    now rewrite (length_vscale_unit _ t Ht Hunit). }
  split; [exact Hdir |]. split; [now rewrite Hdir |].
  split; [exact Hcolor |].
  intros Hone. rewrite Hcolor, Hone.
  f_equal. unfold vscale. simpl. f_equal; ring.
Qed.

(** C8 as stated fails: for a light aimed so that its axis is tilted
    towards its up vector, a point on the axis does not sample the centre
    of the texture. *)
Lemma tilted_axis_sample_off_centre :
  g_position on_tilted_axis
  = vsub (position tilted_light) (vscale (direction tilted_light) 1)
  /\ samplePointFor tilted_light textured_ex
       (l_direction
          (@getSpotLightInfo threeChunk tilted_light textured_ex white
             on_tilted_axis))
     <> mkVec2 0.5 0.5.
Proof.
  assert (Hpos : g_position on_tilted_axis
                 = vsub (position tilted_light)
                     (vscale (direction tilted_light) 1))
    by (unfold vsub, vscale; simpl; f_equal; lra).
  split; [exact Hpos |].
  rewrite l_direction_spec, Hpos, on_axis_lVector.
  rewrite normalize_vscale_unit
    by (try lra; unfold dot; simpl; lra).
  unfold samplePointFor. simpl.
  replace (dot (mkVec3 0 (3 / 5) (4 / 5)) (mkVec3 0 1 0)) with (3 / 5)
    by (unfold dot; simpl; lra).
  intros Heq. injection Heq as _ Hy.
  assert (Hcone : 0 < acos (1 / 2)) by (apply acos_bound_lt; lra).
  assert (Hup : acos (3 / 5) = PI / 2).
  { assert (Hz : (acos (3 / 5) - PI / 2) / (2 * acos (1 / 2)) = 0) by lra.
    apply (Rmult_eq_compat_r (2 * acos (1 / 2))) in Hz.
    unfold Rdiv in Hz. rewrite Rmult_assoc, Rinv_l, Rmult_0_l in Hz by lra.
    lra. }
  pose proof (cos_acos (3 / 5)) as Hcos.
  rewrite Hup, cos_PI2 in Hcos. lra.
Qed.

Lemma on_axis_sample_witness :
  hasTexture textured_ex = true
  /\ intensity textured_ex = 2
  /\ 0 < 2
  /\ dot (direction straight_light) (direction straight_light) = 1
  /\ dot (direction straight_light) (up textured_ex) = 0
  /\ samplePointFor straight_light textured_ex
       (l_direction
          (@getSpotLightInfo threeChunk straight_light textured_ex white
             on_straight_axis))
     = mkVec2 0.5 0.5
  /\ l_color
       (@getSpotLightInfo threeChunk straight_light textured_ex white
          on_straight_axis)
     = vscale
         (vscale (vscale (rgb (texture white (mkVec2 0.5 0.5))) 2)
            (smoothstep (1 / 2) (3 / 4) 1))
         1.
Proof.
  assert (H1 : hasTexture textured_ex = true) by reflexivity.
  assert (H2 : intensity textured_ex = 2) by reflexivity.
  assert (H3 : 0 < 2) by lra.
  assert (H4 : dot (direction straight_light) (direction straight_light) = 1)
    by (unfold dot; simpl; lra).
  assert (H5 : g_position on_straight_axis
               = vsub (position straight_light)
                   (vscale (direction straight_light) 2))
    by (unfold vsub, vscale; simpl; f_equal; lra).
  assert (H6 : dot (direction straight_light) (up textured_ex) = 0)
    by (unfold dot; simpl; lra).
  pose proof (@on_axis_sample_is_centre threeChunk straight_light textured_ex
                white on_straight_axis 2 H1 H2 H3 H4 H5 H6)
    as (_ & Hs & Hc & _).
  repeat (split; [assumption |]). exact Hc.
Defined.

Lemma untextured_light_witness :
  hasTexture plain_ex = false
  /\ l_color
       (@getSpotLightInfo threeChunk straight_light plain_ex white
          on_straight_axis)
     = vscale
         (vscale (color straight_light)
            (smoothstep (1 / 2) (3 / 4)
               (dot (normalize
                       (vsub (position straight_light)
                          (g_position on_straight_axis)))
                    (direction straight_light))))
         1.
Proof.
  split; [reflexivity |].
  exact (@untextured_light_color threeChunk straight_light plain_ex white
           on_straight_axis eq_refl).
Defined.

(** On the axis of a well-formed cone the host's angular attenuation is 1. *)
Example smoothstep_on_axis : smoothstep (1 / 2) (3 / 4) 1 = 1.
Proof.
  unfold smoothstep, clamp.
  replace ((1 - 1 / 2) / (3 / 4 - 1 / 2)) with 2 by field.
  rewrite Rmax_left by lra. rewrite Rmin_right by lra. ring.
Qed.

End GLSLFacts.

(** * Further properties of the code *)

(** ** Patching the shader chunks *)

Lemma split_newline_nonempty s : split_newline s <> [].
Proof.
  destruct s as [| c s]; simpl; [discriminate |].
  destruct (Ascii.eqb c newline); [discriminate |].
  destruct (split_newline s); discriminate.
Qed.

Lemma join_newline_cons_char c piece pieces :
  join_newline (String c piece :: pieces)
  = String c (join_newline (piece :: pieces)).
Proof. destruct pieces; reflexivity. Qed.

Lemma join_split_newline s : join_newline (split_newline s) = s.
Proof.
  induction s as [| c s IH]; [reflexivity |].
  simpl. destruct (Ascii.eqb c newline) eqn:Hc.
  - apply Ascii.eqb_eq in Hc. subst c.
    destruct (split_newline s) as [| piece pieces] eqn:Hs.
    + now apply split_newline_nonempty in Hs.
    + simpl in *. now rewrite IH.
  - destruct (split_newline s) as [| piece pieces] eqn:Hs.
    + now apply split_newline_nonempty in Hs.
    + now rewrite join_newline_cons_char, IH.
Qed.

Lemma split_newline_oneLine s : oneLine s = true -> split_newline s = [s].
Proof.
  induction s as [| c s IH]; [reflexivity |].
  simpl. intros Hs. apply andb_true_iff in Hs as [Hc Hs].
  apply negb_true_iff in Hc. now rewrite Hc, IH.
Qed.

Lemma split_newline_append piece rest :
  oneLine piece = true ->
  split_newline (String.append piece (String newline rest))
  = piece :: split_newline rest.
Proof.
  induction piece as [| c piece IH]; simpl.
  - reflexivity.
  - intros Hs. apply andb_true_iff in Hs as [Hc Hs].
    apply negb_true_iff in Hc. now rewrite Hc, IH.
Qed.

Lemma split_join_newline l :
  l <> [] -> Forall (fun piece => oneLine piece = true) l ->
  split_newline (join_newline l) = l.
Proof.
  intros Hne Hall. induction Hall as [| piece rest Hp Hrest IH];
    [congruence |].
  destruct rest as [| piece' rest].
  - simpl. now apply split_newline_oneLine.
  - change (join_newline (piece :: piece' :: rest))
      with (String.append piece
              (String newline (join_newline (piece' :: rest)))).
    rewrite split_newline_append by assumption.
    now rewrite IH.
Qed.

Lemma split_newline_pieces s :
  Forall (fun piece => oneLine piece = true) (split_newline s).
Proof.
  induction s as [| c s IH]; simpl; [repeat constructor |].
  destruct (Ascii.eqb c newline) eqn:Hc; [now constructor |].
  destruct (split_newline s) as [| piece pieces];
    [repeat constructor; simpl; now rewrite Hc |].
  apply List.Forall_cons_iff in IH as [Hp Hps].
  constructor; [| assumption]. simpl. now rewrite Hc, Hp.
Qed.

Lemma map_oneLine (f : string -> string) l :
  (forall x, oneLine x = true -> oneLine (f x) = true) ->
  Forall (fun piece => oneLine piece = true) l ->
  Forall (fun piece => oneLine piece = true) (map f l).
Proof.
  intros Hf Hall. induction Hall; simpl; constructor; auto.
Qed.

Lemma map_fixed {A} (f : A -> A) l :
  (forall x, In x l -> f x = x) -> map f l = l.
Proof.
  induction l as [| x l IH]; intros Hf; [reflexivity |].
  simpl. rewrite Hf by now left. f_equal. apply IH. intros y Hy.
  apply Hf. now right.
Qed.

(** X1.  The call-site patch acts line by line: read back as lines, the
    patched [lights_fragment_begin] has the lines of the original with
    every unextended call replaced by the extended one and all other
    lines as they were; none of its lines is the unextended call; a
    chunk without the call comes back unchanged; patching twice is
    patching once. *)
Theorem patch_lights_fragment_begin_lines chunk :
  split_newline (patch_lights_fragment_begin chunk)
  = map extendCall (split_newline chunk)
  /\ ~ In fragment_call (split_newline (patch_lights_fragment_begin chunk))
  /\ (~ In fragment_call (split_newline chunk) ->
      patch_lights_fragment_begin chunk = chunk)
  /\ patch_lights_fragment_begin (patch_lights_fragment_begin chunk)
     = patch_lights_fragment_begin chunk.
Proof.
  assert (Hlines : split_newline (patch_lights_fragment_begin chunk)
                   = map extendCall (split_newline chunk)).
  { unfold patch_lights_fragment_begin. apply split_join_newline.
    - intros Hnil. apply map_eq_nil in Hnil.
      now apply split_newline_nonempty in Hnil.
    - apply map_oneLine; [| apply split_newline_pieces].
      intros x Hx. unfold extendCall.
      destruct (String.eqb x fragment_call); [reflexivity | exact Hx]. }
  assert (Hnone : ~ In fragment_call
                      (split_newline (patch_lights_fragment_begin chunk))).
  { rewrite Hlines. intros Hin. apply in_map_iff in Hin as (x & Hx & _).
    unfold extendCall in Hx.
    destruct (String.eqb x fragment_call) eqn:Hc.
    - discriminate Hx.
    - apply String.eqb_neq in Hc. congruence. }
  assert (Hsame : forall c, ~ In fragment_call (split_newline c) ->
                            patch_lights_fragment_begin c = c).
  { intros c Hc. unfold patch_lights_fragment_begin.
    rewrite map_fixed; [apply join_split_newline |].
    intros x Hx. destruct (String.eqb x fragment_call) eqn:He;
      [| reflexivity].
    apply String.eqb_eq in He. congruence. }
  split; [exact Hlines |]. split; [exact Hnone |].
  split; [apply Hsame | now apply Hsame].
Qed.

(** X2.  The Lambert patch blanks the call: read back as lines, the
    patched [lights_lambert_vertex] has as many lines as the original,
    each call line empty and every other line as it was; no call line
    is left; patching twice is patching once. *)
Theorem patch_lights_lambert_vertex_lines chunk :
  split_newline (patch_lights_lambert_vertex chunk)
  = map dropCall (split_newline chunk)
  /\ List.length (split_newline (patch_lights_lambert_vertex chunk))
     = List.length (split_newline chunk)
  /\ ~ In lambert_call (split_newline (patch_lights_lambert_vertex chunk))
  /\ patch_lights_lambert_vertex (patch_lights_lambert_vertex chunk)
     = patch_lights_lambert_vertex chunk.
Proof.
  assert (Hlines : split_newline (patch_lights_lambert_vertex chunk)
                   = map dropCall (split_newline chunk)).
  { unfold patch_lights_lambert_vertex. apply split_join_newline.
    - intros Hnil. apply map_eq_nil in Hnil.
      now apply split_newline_nonempty in Hnil.
    - apply map_oneLine; [| apply split_newline_pieces].
      intros x Hx. unfold dropCall.
      destruct (String.eqb x lambert_call); [reflexivity | exact Hx]. }
  assert (Hnone : ~ In lambert_call
                      (split_newline (patch_lights_lambert_vertex chunk))).
  { rewrite Hlines. intros Hin. apply in_map_iff in Hin as (x & Hx & _).
    unfold dropCall in Hx.
    destruct (String.eqb x lambert_call) eqn:Hc.
    - discriminate Hx.
    - apply String.eqb_neq in Hc. congruence. }
  split; [exact Hlines |].
  split; [rewrite Hlines; apply length_map |].
  split; [exact Hnone |].
  unfold patch_lights_lambert_vertex at 1.
  rewrite map_fixed; [apply join_split_newline |].
  intros x Hx. destruct (String.eqb x lambert_call) eqn:He; [| reflexivity].
  apply String.eqb_eq in He. congruence.
Qed.

Lemma firstIndex_absent x l : forall i,
  ~ In x l -> firstIndex x l i = (-1)%Z.
Proof.
  induction l as [| y l IH]; intros i Hn; [reflexivity |].
  simpl. destruct (String.eqb y x) eqn:Hy.
  - apply String.eqb_eq in Hy. subst y. exfalso. apply Hn. now left.
  - apply IH. intros Hin. apply Hn. now right.
Qed.

Lemma firstIndex_found x pre rest : forall i,
  ~ In x pre ->
  firstIndex x (pre ++ x :: rest) i = (i + Z.of_nat (List.length pre))%Z.
Proof.
  induction pre as [| y pre IH]; intros i Hn; simpl.
  - rewrite String.eqb_refl. lia.
  - destruct (String.eqb y x) eqn:Hy.
    + apply String.eqb_eq in Hy. subst y. exfalso. apply Hn. now left.
    + rewrite IH by (intros Hin; apply Hn; now right). lia.
Qed.

Ltac decide_Z_tests :=
  repeat match goal with
    | |- context [(?a >=? ?b)%Z] => destruct (Z.geb_spec a b); try lia
    | |- context [(?a <? ?b)%Z] => destruct (Z.ltb_spec a b); try lia
    end.

Lemma Array_indexOf_from_start l x :
  Array_indexOf l x 0 = firstIndex x l 0.
Proof.
  unfold Array_indexOf. destruct l as [| y l]; [reflexivity |].
  assert (0 < Z.of_nat (List.length (y :: l)))%Z by (simpl; lia).
  decide_Z_tests. reflexivity.
Qed.

Lemma Array_indexOf_inside l x (n : nat) :
  (n < List.length l)%nat ->
  Array_indexOf l x (Z.of_nat n)
  = firstIndex x (drop n l) (Z.of_nat n).
Proof.
  intros Hn. unfold Array_indexOf.
  decide_Z_tests. now rewrite Nat2Z.id.
Qed.

Lemma Array_splice_inside {A} (l : list A) (n d : nat) items :
  (n + d <= List.length l)%nat ->
  Array_splice l (Z.of_nat n) (Z.of_nat d) items
  = take n l ++ items ++ drop (n + d) l.
Proof.
  intros Hnd. unfold Array_splice.
  decide_Z_tests.
  rewrite (Z.min_l (Z.of_nat n)) by lia.
  rewrite (Z.max_l (Z.of_nat d)) by lia.
  rewrite (Z.min_l (Z.of_nat d)) by lia.
  rewrite <- Nat2Z.inj_add, !Nat2Z.id. reflexivity.
Qed.

Lemma spliced_lines_replaces_block block pre mid post :
  ~ In spot_light_start_marker pre ->
  ~ In spot_light_end_marker mid ->
  spliced_lines block
    (pre ++ spot_light_start_marker :: mid ++ spot_light_end_marker :: post)
  = pre ++ block :: post.
Proof.
  intros Hpre Hmid. unfold spliced_lines.
  set (lines := pre ++ spot_light_start_marker :: mid
                ++ spot_light_end_marker :: post).
  assert (Hlen : List.length lines
                 = (List.length pre + (List.length mid + 2)
                    + List.length post)%nat).
  { unfold lines. rewrite length_app. simpl. rewrite length_app. simpl. lia. }
  assert (Hstart : Array_indexOf lines spot_light_start_marker 0
                   = Z.of_nat (List.length pre)).
  { rewrite Array_indexOf_from_start. unfold lines.
    rewrite firstIndex_found by assumption. lia. }
  rewrite Hstart.
  assert (Hend : Array_indexOf lines spot_light_end_marker
                   (Z.of_nat (List.length pre))
                 = Z.of_nat (List.length pre + List.length mid + 1)).
  { rewrite Array_indexOf_inside by lia. unfold lines.
    rewrite drop_app_length. simpl firstIndex.
    rewrite firstIndex_found by assumption. lia. }
  rewrite Hend.
  replace (Z.of_nat (List.length pre + List.length mid + 1)
           - Z.of_nat (List.length pre) + 1)%Z
    with (Z.of_nat (List.length mid + 2)) by lia.
  rewrite Array_splice_inside by lia.
  unfold lines. rewrite take_app_length. f_equal. simpl. f_equal.
  replace (pre ++ spot_light_start_marker :: mid
           ++ spot_light_end_marker :: post)
    with ((pre ++ spot_light_start_marker :: mid ++ [spot_light_end_marker])
          ++ post)
    by (repeat (rewrite <- app_assoc; simpl); reflexivity).
  replace (List.length pre + (List.length mid + 2))%nat
    with (List.length
            (pre ++ spot_light_start_marker :: mid ++ [spot_light_end_marker]))
    by (rewrite length_app; simpl; rewrite length_app; simpl; lia).
  apply drop_app_length.
Qed.

Lemma spliced_lines_without_start_marker block lines :
  lines <> [] ->
  ~ In spot_light_start_marker lines ->
  spliced_lines block lines = removelast lines ++ [block].
Proof.
  intros Hne Hno. unfold spliced_lines.
  rewrite Array_indexOf_from_start, firstIndex_absent by assumption.
  assert (Hlen : (1 <= List.length lines)%nat)
    by (destruct lines; [congruence | simpl; lia]).
  set (e := Array_indexOf lines spot_light_end_marker (-1)).
  assert (He : e = (-1)%Z \/ e = (Z.of_nat (List.length lines) - 1)%Z).
  { unfold e, Array_indexOf.
    decide_Z_tests.
    rewrite Z.max_l by lia.
    replace (Z.to_nat (Z.of_nat (List.length lines) + -1))
      with (List.length lines - 1)%nat by lia.
    destruct (drop (List.length lines - 1) lines) as [| y rest] eqn:Hd.
    - now left.
    - assert (Hr : List.length (drop (List.length lines - 1) lines) = 1%nat)
        by (rewrite length_drop; lia).
      rewrite Hd in Hr. destruct rest; [| simpl in Hr; lia].
      simpl. destruct (String.eqb y spot_light_end_marker); [right; lia | now left]. }
  unfold Array_splice. decide_Z_tests.
  rewrite Z.max_l by lia.
  replace (Z.min (Z.max (e - -1 + 1) 0)
             (Z.of_nat (List.length lines)
              - (Z.of_nat (List.length lines) + -1)))
    with 1%Z by (destruct He as [-> | ->]; lia).
  replace (Z.to_nat (Z.of_nat (List.length lines) + -1))
    with (List.length lines - 1)%nat by lia.
  replace (Z.to_nat (Z.of_nat (List.length lines) + -1 + 1))
    with (List.length lines) by lia.
  rewrite drop_all, app_nil_r.
  f_equal. rewrite removelast_firstn_len.
  now replace (Init.Nat.pred (List.length lines))
    with (List.length lines - 1)%nat by lia.
Qed.

Lemma spliced_lines_without_end_marker block pre rest :
  ~ In spot_light_start_marker pre ->
  ~ In spot_light_end_marker rest ->
  spliced_lines block (pre ++ spot_light_start_marker :: rest)
  = pre ++ block :: spot_light_start_marker :: rest.
Proof.
  intros Hpre Hrest. unfold spliced_lines.
  set (lines := pre ++ spot_light_start_marker :: rest).
  assert (Hlen : List.length lines
                 = (List.length pre + 1 + List.length rest)%nat)
    by (unfold lines; rewrite length_app; simpl; lia).
  assert (Hstart : Array_indexOf lines spot_light_start_marker 0
                   = Z.of_nat (List.length pre)).
  { rewrite Array_indexOf_from_start. unfold lines.
    rewrite firstIndex_found by assumption. lia. }
  rewrite Hstart.
  assert (Hend : Array_indexOf lines spot_light_end_marker
                   (Z.of_nat (List.length pre)) = (-1)%Z).
  { rewrite Array_indexOf_inside by lia. unfold lines.
    rewrite drop_app_length. simpl firstIndex.
    now apply firstIndex_absent. }
  rewrite Hend. unfold Array_splice.
  decide_Z_tests.
  rewrite (Z.min_l (Z.of_nat (List.length pre))) by lia.
  rewrite Z.max_r by lia. rewrite Z.min_l by lia.
  rewrite Z.add_0_r, Nat2Z.id. unfold lines.
  now rewrite take_app_length, drop_app_length.
Qed.

(** X3.  When the chunk has a start-marker line and an end-marker line
    after it, the patched chunk is the original with exactly the lines
    from the first start marker to the first end marker that follows it
    replaced by the block; the lines before and after are kept in order. *)
Theorem patch_lights_pars_begin_replaces_block block chunk pre mid post :
  split_newline chunk
  = pre ++ spot_light_start_marker :: mid ++ spot_light_end_marker :: post ->
  ~ In spot_light_start_marker pre ->
  ~ In spot_light_end_marker mid ->
  patch_lights_pars_begin block chunk = join_newline (pre ++ block :: post).
Proof.
  intros Hsplit Hpre Hmid. unfold patch_lights_pars_begin.
  rewrite Hsplit. f_equal. now apply spliced_lines_replaces_block.
Qed.

Lemma patch_lights_pars_begin_replaces_block_witness :
  split_newline sample_pars_chunk
  = ["uniform vec3 ambientLightColor;"%string]
    ++ spot_light_start_marker
       :: ["  struct SpotLight { vec3 position; };"%string]
    ++ spot_light_end_marker :: ["#if NUM_RECT > 0"; "#endif"]%string
  /\ patch_lights_pars_begin "BLOCK" sample_pars_chunk
     = join_newline
         ["uniform vec3 ambientLightColor;"; "BLOCK"; "#if NUM_RECT > 0";
          "#endif"]%string.
Proof.
  split; [reflexivity |].
  apply (patch_lights_pars_begin_replaces_block "BLOCK" sample_pars_chunk
           ["uniform vec3 ambientLightColor;"%string]
           ["  struct SpotLight { vec3 position; };"%string]
           ["#if NUM_RECT > 0"; "#endif"]%string).
  - reflexivity.
  - simpl. intros [H | []]. discriminate H.
  - simpl. intros [H | []]. discriminate H.
Defined.

(** X4.  When no line of the chunk is the start marker, nothing fails:
    the patched chunk is the original with its last line overwritten by
    the block. *)
Theorem patch_lights_pars_begin_without_start_marker block chunk :
  ~ In spot_light_start_marker (split_newline chunk) ->
  patch_lights_pars_begin block chunk
  = join_newline (removelast (split_newline chunk) ++ [block]).
Proof.
  intros Hno. unfold patch_lights_pars_begin. f_equal.
  apply spliced_lines_without_start_marker; [| exact Hno].
  apply split_newline_nonempty.
Qed.

Lemma patch_lights_pars_begin_without_start_marker_witness :
  ~ In spot_light_start_marker (split_newline sample_chunk_without_markers)
  /\ patch_lights_pars_begin "BLOCK" sample_chunk_without_markers
     = join_newline ["void main() {"; "BLOCK"]%string.
Proof.
  assert (Hno : ~ In spot_light_start_marker
                    (split_newline sample_chunk_without_markers)).
  { simpl. intros [H | [H | []]]; discriminate H. }
  split; [exact Hno |].
  exact (patch_lights_pars_begin_without_start_marker "BLOCK"
           sample_chunk_without_markers Hno).
Defined.

(** X5.  When the start marker is there but no end marker follows it,
    nothing is removed: the block is inserted in front of the start
    marker, and every original line stays. *)
Theorem patch_lights_pars_begin_without_end_marker block chunk pre rest :
  split_newline chunk = pre ++ spot_light_start_marker :: rest ->
  ~ In spot_light_start_marker pre ->
  ~ In spot_light_end_marker rest ->
  patch_lights_pars_begin block chunk
  = join_newline (pre ++ block :: spot_light_start_marker :: rest).
Proof.
  intros Hsplit Hpre Hrest. unfold patch_lights_pars_begin.
  rewrite Hsplit. f_equal. now apply spliced_lines_without_end_marker.
Qed.

Lemma patch_lights_pars_begin_without_end_marker_witness :
  split_newline sample_chunk_without_end
  = ["precision highp float;"%string]
    ++ spot_light_start_marker
       :: ["  struct SpotLight { vec3 position; };"%string]
  /\ patch_lights_pars_begin "BLOCK" sample_chunk_without_end
     = join_newline
         ["precision highp float;"; "BLOCK"; "#if NUM_SPOT_LIGHTS > 0";
          "  struct SpotLight { vec3 position; };"]%string.
Proof.
  split; [reflexivity |].
  apply (patch_lights_pars_begin_without_end_marker "BLOCK"
           sample_chunk_without_end ["precision highp float;"%string]
           ["  struct SpotLight { vec3 position; };"%string]).
  - reflexivity.
  - simpl. intros [H | []]. discriminate H.
  - simpl. intros [H | []]. discriminate H.
Defined.

Example patch_lights_fragment_begin_sample :
  patch_lights_fragment_begin
    (join_newline ["#pragma unroll_loop_start"%string; fragment_call;
                   "#pragma unroll_loop_end"%string])
  = join_newline ["#pragma unroll_loop_start"%string; fragment_call_extended;
                  "#pragma unroll_loop_end"%string].
Proof. reflexivity. Qed.

(** ** The rotating helper *)

(** X6.  However many ticks ran, the rotation about y is the last tick's
    time over 2000, and the rotations about x and z are the initial ones. *)
Theorem rotate_round_last_tick_wins ticks t dt rotation :
  rotate_round_run (ticks ++ [(t, dt)]) rotation
  = mkEuler (rot_x rotation) (t / 2000) (rot_z rotation).
Proof.
  unfold rotate_round_run. rewrite fold_left_app. simpl.
  unfold rotate_round_tick. simpl. f_equal.
  - induction ticks as [| td ticks IH] using rev_ind; [reflexivity |].
    now rewrite fold_left_app.
  - induction ticks as [| td ticks IH] using rev_ind; [reflexivity |].
    now rewrite fold_left_app.
Qed.

(** ** The binding over its whole life *)

Section BindingLife.
Variable colorManagement : bool.

Lemma setIntensity_spec v b :
  setIntensity v b
  = mkBinding (mkSpotlightTexture (data_src (component b)) v
                 (texture (component b)))
              (inflight b).
Proof.
  unfold setIntensity, update. simpl.
  destruct (decide _) as [_ | Hne]; [reflexivity | congruence].
Qed.

Lemma setSource_cases id b :
  (id = data_src (component b) /\ setSource id b = b)
  \/ (id <> data_src (component b)
      /\ setSource id b
         = mkBinding (mkSpotlightTexture id (data_intensity (component b))
                        None)
                     (inflight b ++ [id])).
Proof.
  destruct (decide (id = data_src (component b))) as [-> | Hne].
  - left. split; [reflexivity | apply setSource_same].
  - right. split; [exact Hne | now apply setSource_changed].
Qed.

(** X7.  Only a change of [src] reloads: setting the intensity, or
    setting the source to the id already bound, leaves the resolved
    texture and the requests in flight as they are, and the intensity
    reads back as set. *)
Theorem only_a_new_source_reloads v b :
  getIntensity (setIntensity v b) = v
  /\ getResolvedTexture (setIntensity v b) = getResolvedTexture b
  /\ inflight (setIntensity v b) = inflight b
  /\ data_src (component (setIntensity v b)) = data_src (component b)
  /\ setSource (data_src (component b)) b = b.
Proof.
  rewrite setIntensity_spec. repeat (split; [reflexivity |]).
  apply setSource_same.
Qed.

Lemma bindingRun_snoc evs ev b :
  bindingRun colorManagement (evs ++ [ev]) b
  = bindingStep colorManagement (bindingRun colorManagement evs b) ev.
Proof. unfold bindingRun. now rewrite fold_left_app. Qed.

Lemma deliver_intensity ev b :
  getIntensity (deliver colorManagement ev b) = getIntensity b.
Proof.
  destruct ev as [k | k]; simpl; [| reflexivity].
  now destruct (inflight b !! k).
Qed.

(** X8.  The intensity of a binding is the last value set, or the
    initial one when none was set: source changes and load completions
    or failures never touch it. *)
Theorem intensity_is_last_set evs b :
  getIntensity (bindingRun colorManagement evs b)
  = List.last (intensitiesSet evs) (getIntensity b).
Proof.
  induction evs as [| ev evs IH] using rev_ind; [reflexivity |].
  rewrite bindingRun_snoc. unfold intensitiesSet in *.
  rewrite flat_map_app.
  destruct ev as [id | v | ev]; cbn [flat_map bindingStep app].
  - rewrite !app_nil_r, <- IH.
    destruct (setSource_cases id (bindingRun colorManagement evs b))
      as [[_ ->] | [_ ->]]; reflexivity.
  - rewrite List.last_last, setIntensity_spec. reflexivity.
  - rewrite !app_nil_r, <- IH. apply deliver_intensity.
Qed.

Lemma loadedFrom_mono pool pool' b :
  (forall src, In src pool -> In src pool') ->
  loadedFrom colorManagement pool b -> loadedFrom colorManagement pool' b.
Proof.
  intros Hsub [Hin Htex]. split.
  - eapply Forall_impl; [exact Hin | exact Hsub].
  - destruct (getResolvedTexture b) as [t |]; [| exact I].
    destruct Htex as (src & Hsrc & ->). exists src. auto.
Qed.

Lemma bindingStep_loadedFrom pool ev b :
  loadedFrom colorManagement pool b ->
  loadedFrom colorManagement (pool ++ requested [ev])
    (bindingStep colorManagement b ev).
Proof.
  intros Hb.
  assert (Hb' : loadedFrom colorManagement (pool ++ requested [ev]) b).
  { eapply loadedFrom_mono; [| exact Hb]. intros src Hs.
    apply in_or_app. now left. }
  destruct ev as [id | v | ev]; simpl bindingStep.
  - destruct (setSource_cases id b) as [[_ ->] | [_ ->]]; [exact Hb' |].
    destruct Hb' as [Hin _]. split; simpl; [| exact I].
    apply Forall_app. split; [exact Hin |].
    constructor; [| constructor]. apply in_or_app. right. now left.
  - rewrite setIntensity_spec. exact Hb'.
  - destruct Hb' as [Hin Htex]. destruct ev as [k | k]; simpl.
    + destruct (inflight b !! k) as [src |] eqn:Hk; [| now split].
      split; simpl.
      * now apply Forall_delete.
      * exists src. split; [| reflexivity].
        rewrite Forall_lookup in Hin. exact (Hin _ _ Hk).
    + split; [now apply Forall_delete | exact Htex].
Qed.

Lemma requested_snoc evs ev :
  requested (evs ++ [ev]) = requested evs ++ requested [ev].
Proof. unfold requested. apply flat_map_app. Qed.

(** X9.  Whatever the host does to a freshly created binding - source
    changes, intensity changes, completions and failures in any order -
    every request in flight is for the initial source or one that was
    set, and a resolved texture is always the colour-corrected load of
    such a source; with colour management on it is marked sRGB. *)
Theorem resolved_texture_is_a_requested_load src v evs :
  let b := bindingRun colorManagement evs (initBinding src v) in
  Forall (fun s => In s (src :: requested evs)) (inflight b)
  /\ match getResolvedTexture b with
     | None => True
     | Some t =>
         (exists s, In s (src :: requested evs)
                    /\ t = corrected colorManagement s)
         /\ (colorManagement = true -> encoding t = sRGBEncoding)
     end.
Proof.
  simpl.
  assert (Hinv : loadedFrom colorManagement (src :: requested evs)
                   (bindingRun colorManagement evs (initBinding src v))).
  { induction evs as [| ev evs IH] using rev_ind.
    - split; simpl; [| exact I]. constructor; [now left | constructor].
    - rewrite bindingRun_snoc, requested_snoc.
      apply (bindingStep_loadedFrom (src :: requested evs)), IH. }
  destruct Hinv as [Hin Htex]. split; [exact Hin |].
  destruct (getResolvedTexture _) as [t |]; [| exact I].
  split; [exact Htex |].
  destruct Htex as (s & _ & ->). intros ->. reflexivity.
Qed.

Lemma completeInOrder_drains l : forall b,
  inflight b = l -> l <> [] ->
  let b' := completeInOrder colorManagement b in
  inflight b' = []
  /\ getResolvedTexture b'
     = Some (corrected colorManagement (List.last l EmptyString))
  /\ data_src (component b') = data_src (component b)
  /\ getIntensity b' = getIntensity b.
Proof.
  induction l as [| src l IH]; intros b Hl Hne; [congruence |].
  unfold completeInOrder. rewrite Hl. simpl repeat.
  rewrite deliverAll_cons.
  assert (Hd : deliver colorManagement (Loaded 0) b
               = mkBinding
                   (onTextureLoaded colorManagement
                      (mkTexture src LinearEncoding) (component b)) l).
  { unfold deliver. rewrite Hl. reflexivity. }
  rewrite Hd. destruct l as [| src' l].
  - simpl. repeat split; reflexivity.
  - specialize (IH (mkBinding
                      (onTextureLoaded colorManagement
                         (mkTexture src LinearEncoding) (component b))
                      (src' :: l)) eq_refl ltac:(discriminate)).
    unfold completeInOrder in IH. simpl inflight in IH. exact IH.
Qed.

Lemma setSources_tail src v ids :
  let b := fold_left (fun b id => setSource id b) ids (initBinding src v) in
  data_src (component b) = List.last ids src
  /\ exists front, inflight b = front ++ [List.last ids src].
Proof.
  induction ids as [| id ids IH] using rev_ind.
  - simpl. split; [reflexivity |]. now exists [].
  - rewrite fold_left_app, List.last_last. simpl fold_left.
    destruct IH as [Hsrc [front Hin]].
    set (b := fold_left (fun b id => setSource id b) ids (initBinding src v))
      in *.
    destruct (setSource_cases id b) as [[Hid ->] | [_ ->]].
    + rewrite Hid. split; [reflexivity |].
      exists front. now rewrite Hin, Hsrc.
    + simpl. split; [reflexivity |]. now exists (inflight b).
Qed.

(** X10.  When the loads complete in the order in which they were
    requested, a binding created with one source and then switched
    through any sequence of sources ends with no request in flight and
    with the colour-corrected texture of the source set last. *)
Theorem in_order_completion_resolves_last_source src v ids :
  let b := fold_left (fun b id => setSource id b) ids (initBinding src v) in
  let b' := completeInOrder colorManagement b in
  inflight b' = []
  /\ getResolvedTexture b'
     = Some (corrected colorManagement (List.last ids src))
  /\ data_src (component b') = List.last ids src.
Proof.
  simpl.
  destruct (setSources_tail src v ids) as [Hsrc [front Hin]].
  set (b := fold_left (fun b id => setSource id b) ids (initBinding src v))
    in *.
  destruct (completeInOrder_drains (inflight b) b eq_refl) as (H1 & H2 & H3 & _).
  { rewrite Hin. now destruct front. }
  split; [exact H1 |]. split.
  - rewrite H2, Hin, List.last_last. reflexivity.
  - now rewrite H3.
Qed.

End BindingLife.

Example in_order_sample :
  getResolvedTexture
    (completeInOrder true
       (setSource "b.png" (setSource "a.png" (initBinding "" 10%R))))
  = Some (mkTexture "b.png" sRGBEncoding).
Proof. reflexivity. Qed.

(** ** The published arrays, slot by slot *)

Lemma buildAux_spec camera lights : forall extras textures e t,
  buildAux camera lights extras textures = Normal (e, t) ->
  exists ets : list (AuxLightData * option Texture),
    e = extras ++ (fst <$> ets)
    /\ t = textures ++ (snd <$> ets)
    /\ Forall2 (fun light et => auxFor camera light = Normal et) lights ets.
Proof.
  induction lights as [| spotLight rest IH]; intros extras textures e t Hb.
  - injection Hb as <- <-. exists []. simpl. rewrite !app_nil_r.
    repeat split. constructor.
  - simpl in Hb. destruct (auxFor camera spotLight) as [et | err] eqn:Ha;
      [| discriminate].
    simpl in Hb. apply IH in Hb as (ets & -> & -> & Hall).
    exists (et :: ets). simpl. rewrite <- !app_assoc. simpl.
    repeat split. now constructor.
Qed.

Lemma auxFor_flag camera light a slot :
  auxFor camera light = Normal (a, slot) ->
  (hasTexture a = true <-> slot <> None).
Proof.
  unfold auxFor. destruct (el (props light)) as [e |]; [| discriminate].
  intros [= <- <-]. simpl. rewrite bool_decide_eq_true.
  split.
  - intros [x ->]. discriminate.
  - intros Hne. destruct (_ ≫= texture) as [x |]; [now exists x | congruence].
Qed.

(** X11.  What is published is aligned with the registry slot by slot:
    at every index of the registry both arrays have an element, built
    from the light registered at that index, and the [hasTexture] flag
    of the entry is set exactly when the texture slot at the same index
    holds a texture. *)
Theorem published_entries_aligned system so camera so' :
  updateUniforms system so camera = Normal so' ->
  exists e t,
    published so' = Some (e, t)
    /\ forall (i : nat) light,
         spotLights system !! i = Some light ->
         exists a slot,
           e !! i = Some a /\ t !! i = Some slot
           /\ auxFor camera light = Normal (a, slot)
           /\ (hasTexture a = true <-> slot <> None).
Proof.
  intros Hu.
  destruct (updateUniforms_published _ _ _ _ Hu) as (e & t & Hp & _).
  exists e, t. split; [exact Hp |].
  apply updateUniforms_inv in Hu as (e' & t' & Hb & Hun).
  assert (e' = e /\ t' = t) as [-> ->].
  { unfold published in Hp. rewrite Hun in Hp.
    rewrite lookup_insert_ne in Hp by done.
    rewrite !lookup_insert_eq in Hp. now injection Hp as -> ->. }
  apply buildAux_spec in Hb as (ets & -> & -> & Hall). simpl.
  intros i light Hi.
  destruct (Forall2_lookup_l _ _ _ _ _ Hall Hi) as ([a slot] & Hets & Ha).
  exists a, slot. rewrite !list_lookup_fmap, Hets. simpl.
  repeat split; try assumption; now apply (auxFor_flag camera light a slot).
Qed.

(** X12.  A rebuild that completes sets the two uniforms
    [spotLightExs] and [spotLightTextures] and leaves every other
    uniform of the shader object as it was. *)
Theorem updateUniforms_keeps_other_uniforms system so camera so' :
  updateUniforms system so camera = Normal so' ->
  is_Some (uniforms so' !! "spotLightExs")
  /\ is_Some (uniforms so' !! "spotLightTextures")
  /\ forall name : string,
       name <> "spotLightExs"%string -> name <> "spotLightTextures"%string ->
       uniforms so' !! name = uniforms so !! name.
Proof.
  intros Hu. apply updateUniforms_inv in Hu as (e & t & _ & ->).
  split; [| split].
  - rewrite lookup_insert_ne by done. rewrite lookup_insert_eq. eauto.
  - rewrite lookup_insert_eq. eauto.
  - intros name H1 H2. now rewrite !lookup_insert_ne by congruence.
Qed.

Lemma buildAux_throws camera lights : forall extras textures,
  buildAux camera lights extras textures = Throw TypeError
  <-> Exists (fun o => el (props o) = None) lights.
Proof.
  induction lights as [| spotLight rest IH]; intros extras textures.
  - simpl. split; [discriminate | intros H; inversion H].
  - simpl. rewrite List.Exists_cons.
    destruct (el (props spotLight)) as [e |] eqn:He.
    + destruct (auxFor_with_entity camera spotLight e He) as (a & t & ->).
      simpl. rewrite IH. split; [now right | intros [H | H]; [discriminate | exact H]].
    + rewrite (auxFor_without_entity camera spotLight He). simpl.
      split; [now left | reflexivity].
Qed.

(** X13.  A rebuild throws exactly when some registered light belongs to
    no entity; otherwise it completes. *)
Theorem updateUniforms_throws_iff system so camera :
  (updateUniforms system so camera = Throw TypeError
   <-> Exists (fun o => el (props o) = None) (spotLights system))
  /\ ((exists so', updateUniforms system so camera = Normal so')
      <-> Forall (fun o => el (props o) <> None) (spotLights system)).
Proof.
  assert (Hthrow : updateUniforms system so camera = Throw TypeError
                   <-> Exists (fun o => el (props o) = None)
                         (spotLights system)).
  { rewrite <- (buildAux_throws camera (spotLights system) [] []).
    unfold updateUniforms.
    destruct (buildAux camera (spotLights system) [] []) as [et | []];
      simpl; split; congruence. }
  split; [exact Hthrow |]. split.
  - intros [so' Hso']. apply List.Forall_forall. intros o Ho Hel.
    assert (Hex : Exists (fun o => el (props o) = None) (spotLights system))
      by (apply List.Exists_exists; eauto).
    apply Hthrow in Hex. congruence.
  - apply updateUniforms_total.
Qed.

Local Open Scope R_scope.

Lemma Vector3_normalize_unit_or_zero v :
  Vector3_length (Vector3_normalize v) = 1
  \/ Vector3_normalize v = mkVector3 0 0 0.
Proof.
  destruct v as [x y z]. unfold Vector3_normalize. simpl.
  set (l := Vector3_length (mkVector3 x y z)).
  assert (Hsq : l * l = x * x + y * y + z * z).
  { unfold l, Vector3_length. simpl. apply sqrt_sqrt. nra. }
  destruct (Req_dec_T l 0) as [Hz | Hnz].
  - right. rewrite Hz in Hsq.
    assert (x = 0 /\ y = 0 /\ z = 0) as (-> & -> & ->) by (repeat split; nra).
    f_equal; lra.
  - left. unfold Vector3_length. simpl.
    replace (x * (1 / l) * (x * (1 / l)) + y * (1 / l) * (y * (1 / l))
             + z * (1 / l) * (z * (1 / l)))
      with ((x * x + y * y + z * z) * (/ l * / l)) by (field; exact Hnz).
    rewrite <- Hsq.
    replace (l * l * (/ l * / l)) with 1 by (field; exact Hnz).
    apply sqrt_1.
Qed.

(** X14.  The [up] vector of every entry built is a unit vector, unless
    the light's world matrix or the camera's inverse matrix sends it to
    zero, in which case it is the zero vector. *)
Theorem aux_up_is_unit_or_zero camera light a slot :
  auxFor camera light = Normal (a, slot) ->
  Vector3_length (up a) = 1 \/ up a = mkVector3 0 0 0.
Proof.
  unfold auxFor. destruct (el (props light)) as [e |]; [| discriminate].
  intros [= <- _]. simpl. unfold transformDirection at 1.
  apply Vector3_normalize_unit_or_zero.
Qed.

Lemma aux_up_witness :
  exists a slot,
    auxFor sample_camera light3 = Normal (a, slot)
    /\ (Vector3_length (up a) = 1 \/ up a = mkVector3 0 0 0).
Proof.
  eexists _, _. split; [reflexivity |].
  exact (aux_up_is_unit_or_zero sample_camera light3 _ _ eq_refl).
Defined.

Local Close Scope R_scope.

(** X15.  Before the first compile nothing is published and nothing can
    throw: any run of ticks and renders from a state whose shader object
    is still null completes and leaves the component as it was, even
    when lights without an entity are registered. *)
Theorem nothing_happens_before_compile evs : forall w,
  shaderObject (receiver w) = None ->
  Forall (fun ev => match ev with Compile _ => False | _ => True end) evs ->
  exists w',
    frameRun w evs = Normal w'
    /\ receiver w' = receiver w
    /\ sceneCamera w' = sceneCamera w.
Proof.
  induction evs as [| ev evs IH]; intros w Hnone Hall.
  - exists w. auto.
  - apply List.Forall_cons_iff in Hall as [Hev Hall].
    destruct ev as [scene | shader | camera]; [| contradiction |].
    + simpl.
      destruct (IH (mkWorld (tick scene (sceneCamera w) (system w))
                      (sceneCamera w) (receiver w)) Hnone Hall)
        as (w' & Hrun & Hr & Hc).
      exists w'. auto.
    + simpl. unfold onBeforeRender. rewrite Hnone. simpl.
      destruct (IH (mkWorld (system w) (sceneCamera w) (receiver w))
                  Hnone Hall) as (w' & Hrun & Hr & Hc).
      exists w'. auto.
Qed.

Lemma nothing_happens_before_compile_witness :
  exists w',
    frameRun sample_world
      [Tick raw9; Render sample_camera; Tick sample_scene;
       Render sample_camera] = Normal w'
    /\ receiver w' = receiver sample_world
    /\ sceneCamera w' = sceneCamera sample_world.
Proof.
  apply (nothing_happens_before_compile
           [Tick raw9; Render sample_camera; Tick sample_scene;
            Render sample_camera] sample_world eq_refl).
  repeat constructor.
Defined.

Lemma published_entries_aligned_witness :
  exists so',
    updateUniforms sample_system sample_shader sample_camera = Normal so'
    /\ exists e t,
         published so' = Some (e, t)
         /\ forall (i : nat) light,
              spotLights sample_system !! i = Some light ->
              exists a slot,
                e !! i = Some a /\ t !! i = Some slot
                /\ auxFor sample_camera light = Normal (a, slot)
                /\ (hasTexture a = true <-> slot <> None).
Proof.
  eexists. split; [reflexivity |].
  exact (published_entries_aligned sample_system sample_shader sample_camera
           _ eq_refl).
Defined.

Lemma updateUniforms_keeps_other_uniforms_witness :
  exists so',
    updateUniforms sample_system sample_shader sample_camera = Normal so'
    /\ uniforms so' !! "diffuse" = Some (OtherValue 0).
Proof.
  eexists. split; [reflexivity |].
  destruct (updateUniforms_keeps_other_uniforms sample_system sample_shader
              sample_camera _ eq_refl) as (_ & _ & Hother).
  rewrite (Hother "diffuse"%string) by discriminate. reflexivity.
Defined.

(** ** More on the registry *)

Lemma filter_sublist {A} (f : A -> bool) l : List.filter f l `sublist_of` l.
Proof.
  induction l as [| x l IH]; simpl; [constructor |].
  destruct (f x); now constructor.
Qed.

Lemma map_sublist {A B} (f : A -> B) l k :
  l `sublist_of` k -> map f l `sublist_of` map f k.
Proof. induction 1; simpl; now constructor. Qed.

Lemma flat_map_sublist {A B} (f g : A -> list B) l :
  Forall (fun x => f x `sublist_of` g x) l ->
  flat_map f l `sublist_of` flat_map g l.
Proof.
  induction 1 as [| x l Hx _ IH]; simpl; [constructor |].
  now apply sublist_app.
Qed.

Lemma visibleNodes_sublist o : visibleNodes o `sublist_of` allNodes o.
Proof.
  induction o as [d cs IH] using Object3D_nested_ind. simpl.
  destruct (visible d).
  - apply sublist_skip. now apply flat_map_sublist.
  - apply sublist_nil_l.
Qed.

(** X16.  No light gets two slots: when the objects of the scene have
    pairwise distinct uuids, so have the lights in the registry. *)
Theorem tick_registers_each_light_once scene camera this :
  List.NoDup (map (fun o => uuid (props o)) (allNodes scene)) ->
  List.NoDup
    (map (fun o => uuid (props o)) (spotLights (tick scene camera this))).
Proof.
  intros Hnd. rewrite tick_spotLights, Array_sort_byCastShadow.
  apply (Permutation_NoDup
           (l := map (fun o => uuid (props o))
                   (List.filter (inLayerSpot camera) (visibleNodes scene)))).
  - apply Permutation_map. symmetry. apply (partition_Permutation casts).
  - apply NoDup_ListNoDup. apply NoDup_ListNoDup in Hnd.
    refine (sublist_NoDup _ _ Hnd _).
    apply map_sublist. etransitivity; [apply filter_sublist |].
    apply visibleNodes_sublist.
Qed.

Lemma tick_registers_each_light_once_witness :
  List.NoDup (map (fun o => uuid (props o)) (allNodes sample_scene))
  /\ List.NoDup (map (fun o => uuid (props o)) (spotLights sample_system)).
Proof.
  assert (H : List.NoDup
                (map (fun o => uuid (props o)) (allNodes sample_scene))).
  { apply NoDup_ListNoDup. simpl.
    repeat (apply NoDup_cons; split; [rewrite ?elem_of_cons, elem_of_nil; lia |]).
    apply NoDup_nil_2. }
  split; [exact H |].
  exact (tick_registers_each_light_once sample_scene sample_camera
           (mkSpotlightsSystem []) H).
Defined.

Lemma filter_none {A} (f : A -> bool) l :
  (forall x, f x = false) -> List.filter f l = [].
Proof.
  intros Hf. induction l as [| x l IH]; [reflexivity |].
  simpl. now rewrite Hf.
Qed.

(** X17.  A camera with no layer enabled, or an invisible scene root,
    leaves the registry empty whatever the scene holds. *)
Theorem tick_registers_nothing scene camera this :
  mask (camera_layers camera) = 0%Z \/ visible (props scene) = false ->
  spotLights (tick scene camera this) = [].
Proof.
  intros [Hmask | Hvis]; rewrite tick_spotLights.
  - rewrite filter_none; [reflexivity |].
    intros o. unfold inLayerSpot. rewrite Hmask, Z.land_0_r. simpl.
    apply andb_false_r.
  - destruct scene as [d cs]. simpl in *. now rewrite Hvis.
Qed.

Lemma tick_registers_nothing_witness :
  mask (camera_layers (mkCamera (mkLayers 0) identity4)) = 0%Z
  /\ spotLights
       (tick sample_scene (mkCamera (mkLayers 0) identity4) sample_system)
     = [].
Proof.
  split; [reflexivity |].
  exact (tick_registers_nothing sample_scene
           (mkCamera (mkLayers 0) identity4) sample_system
           (or_introl eq_refl)).
Defined.

(** ** More on the patched evaluation routine *)

Module GLSLMore.
Import GLSL.
Local Open Scope R_scope.

Lemma vec3_neq_spec a b : vec3_neq a b = true <-> a <> b.
Proof.
  destruct a as [ax ay az], b as [bx b_y bz]. unfold vec3_neq, eq. simpl.
  destruct (Req_dec_T ax bx), (Req_dec_T ay b_y), (Req_dec_T az bz);
    simpl; split; try congruence; intros _; congruence.
Qed.

Lemma vsub_vsub p w : vsub p (vsub p w) = w.
Proof. destruct p, w. unfold vsub. simpl. f_equal; ring. Qed.

Lemma squares_vanish a b c :
  a * a + b * b + c * c <= 0 -> a = 0 /\ b = 0 /\ c = 0.
Proof. intros H. repeat split; nra. Qed.

Lemma dot_self_nonneg v : 0 <= dot v v.
Proof. unfold dot. nra. Qed.

Lemma length_vscale v t : 0 < t -> length (vscale v t) = t * length v.
Proof.
  intros Ht. unfold length.
  replace (dot (vscale v t) (vscale v t)) with ((t * t) * dot v v)
    by (unfold dot, vscale; simpl; ring).
  rewrite sqrt_mult by (try apply dot_self_nonneg; nra).
  rewrite sqrt_square by lra. reflexivity.
Qed.

Lemma normalize_vscale v t : 0 < t -> normalize (vscale v t) = normalize v.
Proof.
  intros Ht. unfold normalize. rewrite length_vscale by assumption.
  rewrite Rinv_mult. destruct v as [x y z]. unfold vscale. simpl.
  f_equal.
  - replace (x * t * (/ t * / length (mkVec3 x y z)))
      with (x * (t * / t) * / length (mkVec3 x y z)) by ring.
    rewrite Rinv_r by lra. ring.
  - replace (y * t * (/ t * / length (mkVec3 x y z)))
      with (y * (t * / t) * / length (mkVec3 x y z)) by ring.
    rewrite Rinv_r by lra. ring.
  - replace (z * t * (/ t * / length (mkVec3 x y z)))
      with (z * (t * / t) * / length (mkVec3 x y z)) by ring.
    rewrite Rinv_r by lra. ring.
Qed.

Lemma l_visible_spec `{HostChunk} spotLight spotLightEx spotLightTexture
    geometry :
  l_visible (getSpotLightInfo spotLight spotLightEx spotLightTexture geometry)
  = vec3_neq
      (l_color
         (getSpotLightInfo spotLight spotLightEx spotLightTexture geometry))
      (mkVec3 0 0 0).
Proof.
  unfold getSpotLightInfo. now rewrite GLSLFacts.branch_always_taken.
Qed.

(** X19.  Where the angular attenuation is zero the light contributes
    nothing and is not visible, textured or not: although the patched
    condition lets every point through, the colour is still multiplied
    by the attenuation. *)
Theorem no_light_outside_the_cone `{HostChunk} spotLight spotLightEx
    spotLightTexture geometry :
  getSpotAttenuation (coneCos spotLight) (penumbraCos spotLight)
    (dot (normalize (vsub (position spotLight) (g_position geometry)))
       (direction spotLight)) = 0 ->
  let light :=
    getSpotLightInfo spotLight spotLightEx spotLightTexture geometry in
  l_color light = mkVec3 0 0 0 /\ l_visible light = false.
Proof.
  intros Hzero. simpl.
  assert (Hc : l_color (getSpotLightInfo spotLight spotLightEx
                          spotLightTexture geometry) = mkVec3 0 0 0).
  { rewrite GLSLFacts.l_color_spec. simpl. rewrite Hzero.
    unfold vscale. simpl. f_equal; ring. }
  split; [exact Hc |].
  rewrite l_visible_spec, Hc. apply not_true_is_false. intros Hv.
  now apply vec3_neq_spec in Hv.
Qed.

(** X20.  The projection is conical: two shaded points on the same ray
    from the light get the same light direction and the same texture
    coordinate. *)
Theorem same_ray_same_sample `{HostChunk} spotLight spotLightEx
    spotLightTexture g1 g2 t :
  0 < t ->
  g_position g2
  = vsub (position spotLight)
      (vscale (vsub (position spotLight) (g_position g1)) t) ->
  let light1 := getSpotLightInfo spotLight spotLightEx spotLightTexture g1 in
  let light2 := getSpotLightInfo spotLight spotLightEx spotLightTexture g2 in
  l_direction light2 = l_direction light1
  /\ samplePointFor spotLight spotLightEx (l_direction light2)
     = samplePointFor spotLight spotLightEx (l_direction light1).
Proof.
  intros Ht Hg. simpl.
  assert (Hd : l_direction (getSpotLightInfo spotLight spotLightEx
                              spotLightTexture g2)
               = l_direction (getSpotLightInfo spotLight spotLightEx
                                spotLightTexture g1)).
  { rewrite !GLSLFacts.l_direction_spec, Hg, vsub_vsub.
    now apply normalize_vscale. }
  split; [exact Hd | now rewrite Hd].
Qed.

(** X21.  For a shaded point that is not at the light's position the
    direction returned is a unit vector. *)
Theorem light_direction_is_unit `{HostChunk} spotLight spotLightEx
    spotLightTexture geometry :
  position spotLight <> g_position geometry ->
  let light :=
    getSpotLightInfo spotLight spotLightEx spotLightTexture geometry in
  dot (l_direction light) (l_direction light) = 1.
Proof.
  intros Hne. simpl. rewrite GLSLFacts.l_direction_spec.
  set (v := vsub (position spotLight) (g_position geometry)).
  assert (Hpos : 0 < dot v v).
  { destruct (Rle_lt_dec (dot v v) 0) as [Hle | Hlt]; [| exact Hlt].
    exfalso. apply Hne. unfold v, dot, vsub in Hle. simpl in Hle.
    destruct (position spotLight) as [px py pz],
             (g_position geometry) as [gx gy gz]. simpl in Hle.
    apply squares_vanish in Hle as (Hx & Hy & Hz).
    f_equal; lra. }
  assert (Hsq : length v * length v = dot v v)
    by (unfold length; apply sqrt_sqrt; lra).
  assert (Hl : length v <> 0) by (intros Hz; rewrite Hz in Hsq; lra).
  unfold normalize.
  replace (dot (vscale v (/ length v)) (vscale v (/ length v)))
    with (dot v v * (/ length v * / length v))
    by (unfold dot, vscale; simpl; ring).
  rewrite <- Hsq. field. exact Hl.
Qed.

Lemma unit_dot_bound a b :
  dot a a = 1 -> dot b b = 1 -> -1 <= dot a b <= 1.
Proof.
  intros Ha Hb.
  assert (Hsq : dot a b * dot a b <= 1).
  { unfold dot in *. destruct a as [ax ay az], b as [bx b_y bz]. simpl in *.
    assert (Hlag :
      (ax * ax + ay * ay + az * az) * (bx * bx + b_y * b_y + bz * bz)
      - (ax * bx + ay * b_y + az * bz) * (ax * bx + ay * b_y + az * bz)
      = (ay * bz - az * b_y) * (ay * bz - az * b_y)
        + (az * bx - ax * bz) * (az * bx - ax * bz)
        + (ax * b_y - ay * bx) * (ax * b_y - ay * bx)) by ring.
    rewrite Ha, Hb in Hlag.
    pose proof (Rle_0_sqr (ay * bz - az * b_y)) as H1.
    pose proof (Rle_0_sqr (az * bx - ax * bz)) as H2.
    pose proof (Rle_0_sqr (ax * b_y - ay * bx)) as H3.
    unfold Rsqr in H1, H2, H3. lra. }
  split; nra.
Qed.

Lemma normalize_unit v :
  v <> mkVec3 0 0 0 -> dot (normalize v) (normalize v) = 1.
Proof.
  intros Hne.
  assert (Hpos : 0 < dot v v).
  { destruct (Rle_lt_dec (dot v v) 0) as [Hle | Hlt]; [| exact Hlt].
    exfalso. apply Hne. unfold dot in Hle. destruct v as [x y z].
    simpl in Hle. apply squares_vanish in Hle as (-> & -> & ->).
    reflexivity. }
  assert (Hsq : length v * length v = dot v v)
    by (unfold length; apply sqrt_sqrt; lra).
  assert (Hl : length v <> 0) by (intros Hz; rewrite Hz in Hsq; lra).
  unfold normalize.
  replace (dot (vscale v (/ length v)) (vscale v (/ length v)))
    with (dot v v * (/ length v * / length v))
    by (unfold dot, vscale; simpl; ring).
  rewrite <- Hsq. field. exact Hl.
Qed.


(** X23.  For a shaded point on the axis, where the light direction is
    the light's own unit direction, with a unit up vector that is not
    parallel to that direction and a cone cosine strictly between -1 and
    1: the left vector is a unit vector at right angles to the
    direction, the horizontal texture coordinate is 0.5, and the
    vertical one is 0.5 exactly when the up vector is at right angles to
    the direction. *)
Theorem on_axis_centre_iff_perpendicular spotLight spotLightEx :
  dot (direction spotLight) (direction spotLight) = 1 ->
  dot (up spotLightEx) (up spotLightEx) = 1 ->
  cross (up spotLightEx) (direction spotLight) <> mkVec3 0 0 0 ->
  -1 < coneCos spotLight < 1 ->
  let left := normalize (cross (up spotLightEx) (direction spotLight)) in
  let samplePoint :=
    samplePointFor spotLight spotLightEx (direction spotLight) in
  dot left left = 1
  /\ dot (direction spotLight) left = 0
  /\ x2 samplePoint = 0.5
  /\ (y2 samplePoint = 0.5
      <-> dot (direction spotLight) (up spotLightEx) = 0).
Proof.
  intros Hd Hu Hcross Hcone. simpl.
  split; [now apply normalize_unit |].
  split; [apply GLSLFacts.left_is_orthogonal |].
  pose proof (acos_bound_lt _ Hcone) as [HA _].
  set (A := acos (coneCos spotLight)) in *.
  set (u := dot (direction spotLight) (up spotLightEx)).
  assert (Hcs : -1 <= u <= 1) by now apply unit_dot_bound.
  split.
  - unfold samplePointFor. simpl.
    rewrite GLSLFacts.left_is_orthogonal. apply GLSLFacts.centred_coordinate.
  - unfold samplePointFor. simpl. fold u. fold A. split.
    + intros Hy.
      assert (Hz : (acos u - PI / 2) / (2 * A) = 0) by lra.
      apply (Rmult_eq_compat_r (2 * A)) in Hz.
      unfold Rdiv in Hz. rewrite Rmult_assoc, Rinv_l, Rmult_0_l in Hz by lra.
      pose proof (cos_acos u Hcs) as Hcos.
      replace (acos u) with (PI / 2) in Hcos by lra.
      rewrite cos_PI2 in Hcos. lra.
    + intros ->. apply GLSLFacts.centred_coordinate.
Qed.

Lemma no_light_outside_the_cone_witness :
  l_color (@getSpotLightInfo threeChunk straight_light textured_ex white
             beside_straight_light) = mkVec3 0 0 0
  /\ l_visible (@getSpotLightInfo threeChunk straight_light textured_ex white
                  beside_straight_light) = false.
Proof.
  apply (@no_light_outside_the_cone threeChunk straight_light textured_ex
           white beside_straight_light).
  simpl.
  replace (dot (normalize (vsub (mkVec3 0 0 0) (mkVec3 2 0 0)))
             (mkVec3 0 0 1)) with 0
    by (unfold dot, normalize, vscale, vsub; simpl; ring).
  unfold smoothstep, clamp.
  replace ((0 - 1 / 2) / (3 / 4 - 1 / 2)) with (-2) by field.
  rewrite Rmax_right by lra. rewrite Rmin_left by lra. ring.
Defined.

Lemma same_ray_same_sample_witness :
  0 < 3
  /\ samplePointFor straight_light textured_ex
       (l_direction (@getSpotLightInfo threeChunk straight_light textured_ex
                       white further_on_straight_axis))
     = samplePointFor straight_light textured_ex
         (l_direction (@getSpotLightInfo threeChunk straight_light
                         textured_ex white on_straight_axis)).
Proof.
  assert (Ht : 0 < 3) by lra.
  assert (Hg : g_position further_on_straight_axis
               = vsub (position straight_light)
                   (vscale (vsub (position straight_light)
                              (g_position on_straight_axis)) 3))
    by (unfold vsub, vscale; simpl; f_equal; lra).
  split; [exact Ht |].
  exact (proj2 (@same_ray_same_sample threeChunk straight_light textured_ex
                  white on_straight_axis further_on_straight_axis 3 Ht Hg)).
Defined.

Lemma light_direction_is_unit_witness :
  position straight_light <> g_position on_straight_axis
  /\ dot (l_direction (@getSpotLightInfo threeChunk straight_light
                         textured_ex white on_straight_axis))
         (l_direction (@getSpotLightInfo threeChunk straight_light
                         textured_ex white on_straight_axis)) = 1.
Proof.
  assert (Hne : position straight_light <> g_position on_straight_axis)
    by (simpl; intros Heq; injection Heq as Hz; lra).
  split; [exact Hne |].
  exact (@light_direction_is_unit threeChunk straight_light textured_ex white
           on_straight_axis Hne).
Defined.


Lemma on_axis_centre_iff_perpendicular_witness :
  dot (direction straight_light) (direction straight_light) = 1
  /\ dot (up textured_ex) (up textured_ex) = 1
  /\ cross (up textured_ex) (direction straight_light) <> mkVec3 0 0 0
  /\ -1 < coneCos straight_light < 1
  /\ x2 (samplePointFor straight_light textured_ex
           (direction straight_light)) = 0.5.
Proof.
  assert (Hd : dot (direction straight_light) (direction straight_light) = 1)
    by (unfold dot; simpl; lra).
  assert (Hu : dot (up textured_ex) (up textured_ex) = 1)
    by (unfold dot; simpl; lra).
  assert (Hx : cross (up textured_ex) (direction straight_light)
               <> mkVec3 0 0 0)
    by (unfold cross; simpl; intros Heq; injection Heq as Hx _ _; lra).
  assert (Hc : -1 < coneCos straight_light < 1) by (simpl; lra).
  repeat (split; [assumption |]).
  exact (proj1 (proj2 (proj2
           (on_axis_centre_iff_perpendicular straight_light textured_ex
              Hd Hu Hx Hc)))).
Defined.

End GLSLMore.
